(** * The client of the FIFO request channel (client.cpp)

    A shallow embedding of [main] of [client.cpp]: the option loop, the
    NEWCHANNEL handshake, the data-point requests, the chunked file
    transfer and the closing QUIT.  The run of the client is a function
    from its options and from the replies of its environment (the
    server behind the channel and the file system) to the sequence of
    observable events it performs and the way it ends. *)

From Stdlib Require Import ZArith List Lia Bool String.
From Stdlib Require Import Strings.Byte Numbers.DecimalString.
From Stdlib Require Import Floats.FloatClass Floats.PrimFloat.
From Stdlib Require Import Numbers.Cyclic.Int63.Uint63.
Import ListNotations.

Set Warnings "-inexact-float".

Local Open Scope Z_scope.

(** ** Machine integers

    [int] is 32 bits and [__int64_t] 64 bits, both signed; a value of
    type [Z] is brought into the range of the type by [wrap]. *)

Definition wrap (w : Z) (z : Z) : Z :=
  (z + 2 ^ (w - 1)) mod 2 ^ w - 2 ^ (w - 1).

Definition to_int (z : Z) : Z := wrap 32 z.
Definition to_int64 (z : Z) : Z := wrap 64 z.

Definition INT_MAX : Z := 2 ^ 31 - 1.
Definition INT64_MAX : Z := 2 ^ 63 - 1.

Definition sizeof_double : Z := 8.
Definition sizeof_int64 : Z := 8.

(** ** Bytes, C strings and buffers *)

Definition NUL : byte := x00.

Definition len {A : Type} (l : list A) : Z := Z.of_nat (List.length l).

(** The bytes of a C string: everything before the first NUL. *)
Fixpoint until_nul (s : list byte) : list byte :=
  match s with
  | [] => []
  | b :: s' => if Byte.eqb b NUL then [] else b :: until_nul s'
  end.

(** [std::string::c_str]. *)
Definition c_str (s : list byte) : list byte := s ++ [NUL].

Definition lit (s : string) : list byte := list_byte_of_string s.

(** [std::to_string] on an [int]. *)
Definition to_string (z : Z) : list byte :=
  lit (NilZero.string_of_int (Z.to_int z)).

(** A cell of a [char] array: [None] while nothing has been stored in it. *)
Definition cell : Type := option byte.
Definition buffer : Type := list cell.

Definition stored (l : list byte) : list cell := map Some l.

Definition take {A : Type} (n : Z) (l : list A) : list A := firstn (Z.to_nat n) l.
Definition drop {A : Type} (n : Z) (l : list A) : list A := skipn (Z.to_nat n) l.

(** ** common.h

    [common.h] is not part of the sources at hand.  What [client.cpp]
    uses of it is taken as an interface: the constant [MAX_MESSAGE], the
    sizes of the three message types, and their object representations
    (the bytes that [memcpy] and [cwrite] see). *)

(** Modelled from the spec: the enumeration [MESSAGE_TYPE] of [common.h];
    [NEWCHANNEL_MSG] and [QUIT_MSG] are named in [client.cpp], the tags of
    the data-point and of the file request are the two other variants of
    the message of the spec. *)
Inductive MESSAGE_TYPE : Type :=
| DATA_MSG
| FILE_MSG
| NEWCHANNEL_MSG
| QUIT_MSG.

(** Modelled from the spec: [datamsg x(p, t, e)] of [common.h],
    the request DATAPOINT(person_id, time, ecg_index). *)
Record datamsg : Type := Datamsg {
  person : Z;
  seconds : float;
  ecgno : Z
}.

(** Modelled from the spec: [filemsg fm(offset, length)] of [common.h],
    the request FILE(offset, length); the file name follows the struct. *)
Record filemsg : Type := Filemsg {
  fm_offset : Z;
  fm_length : Z
}.

Class CommonH : Type := {
  MAX_MESSAGE : Z;
  sizeof_MESSAGE_TYPE : Z;
  sizeof_datamsg : Z;
  sizeof_filemsg : Z;
  repr_MESSAGE_TYPE : MESSAGE_TYPE -> list byte;
  repr_datamsg : datamsg -> list byte;
  repr_filemsg : filemsg -> list byte;
  repr_MESSAGE_TYPE_size : forall m, len (repr_MESSAGE_TYPE m) = sizeof_MESSAGE_TYPE;
  repr_datamsg_size : forall x, len (repr_datamsg x) = sizeof_datamsg;
  repr_filemsg_size : forall fm, len (repr_filemsg fm) = sizeof_filemsg;
  repr_MESSAGE_TYPE_inj : forall m m', repr_MESSAGE_TYPE m = repr_MESSAGE_TYPE m' -> m = m'
}.

(** ** Observable events *)

(** The two [FIFORequestChannel] objects of [main]: [chan], opened on
    "control", and the one allocated for the name the server sent. *)
Inductive channel : Type :=
| chan
| new_chan (new_channel_name : list byte).

Definition name (ch : channel) : list byte :=
  match ch with
  | chan => lit "control"
  | new_chan n => n
  end.

Definition channel_eqb (a b : channel) : bool :=
  match a, b with
  | chan, chan => true
  | new_chan n, new_chan n' => if list_eq_dec Byte.byte_eq_dec n n' then true else false
  | _, _ => false
  end.

(** What is sent to [cout]; the numbers are kept as values. *)
Inductive cout_line : Type :=
| Say_value (p : Z) (t : float) (e : Z) (reply : float)
| Say_could_not_open (path : list byte)
| Say_file_length (filename : list byte) (filelen : Z)
| Say_closing (channel_name : list byte).

Inductive event : Type :=
| Fork_exec (args : list (list byte))
| Chan_open (ch : channel)
| Cwrite (ch : channel) (msg : list cell)
| Cread (ch : channel) (n : Z)
| Cout (l : cout_line)
| Ofs_open (path : list byte) (ok : bool)
| Ofs_row (path : list byte) (time val1 val2 : float)
| Ofs_write (path : list byte) (data : list cell)
| Ofs_close (path : list byte)
| Chan_delete (ch : channel)
| Chan_destroy (ch : channel).

(** ** The environment

    The replies that reach the client through [cread], by the request
    they answer, and whether an [ofstream] opens. *)
Record World : Type := {
  reply_newchannel : list byte;
  reply_datapoint : datamsg -> float;
  reply_filelen : list byte -> Z;
  reply_chunk : list byte -> Z -> Z -> list byte;
  ofs_is_open : list byte -> bool
}.

(** ** Runs

    A computation performs events and then either goes on with a value,
    returns from [main], dies on an uncaught exception, leaves the
    defined behaviour of C++, or is cut off by the fuel of a loop. *)
Inductive outcome (A : Type) : Type :=
| Ret (a : A)
| Exit (status : Z)
| Throw
| Undefined
| OutOfFuel.

Arguments Ret {A} a.
Arguments Exit {A} status.
Arguments Throw {A}.
Arguments Undefined {A}.
Arguments OutOfFuel {A}.

Definition M (A : Type) : Type := (list event * outcome A)%type.

Definition ret {A : Type} (a : A) : M A := ([], Ret a).

Definition bind {A B : Type} (m : M A) (k : A -> M B) : M B :=
  match m with
  | (tr, Ret a) => let (tr', o) := k a in (tr ++ tr', o)
  | (tr, Exit s) => (tr, Exit s)
  | (tr, Throw) => (tr, Throw)
  | (tr, Undefined) => (tr, Undefined)
  | (tr, OutOfFuel) => (tr, OutOfFuel)
  end.

Notation "x <- m ;; k" := (bind m (fun x => k))
  (at level 61, m at next level, right associativity).
Notation "m ;; k" := (bind m (fun _ => k))
  (at level 61, right associativity).

Definition emit (ev : event) : M unit := ([ev], Ret tt).
Definition stop {A : Type} (o : outcome A) : M A := ([], o).

Definition trace {A : Type} (m : M A) : list event := fst m.
Definition result {A : Type} (m : M A) : outcome A := snd m.

(** The exit status of the process, when it ends by returning from [main]. *)
Definition exit_status {A : Type} (m : M A) : option Z :=
  match result m with
  | Exit s => Some s
  | _ => None
  end.

(** ** Memory and channel primitives *)

(** [new char[n]]: a negative [int] converts to a size no allocation can
    have, and the expression throws. *)
Definition new_char (n : Z) : M buffer :=
  if n <? 0 then stop Throw else ret (repeat None (Z.to_nat n)).

(** [memcpy(dst, &obj, n)] with [src] the object representation. *)
Definition memcpy (dst : buffer) (src : list byte) (n : Z) : M buffer :=
  if (0 <=? n) && (n <=? len src) && (n <=? len dst)
  then ret (stored (take n src) ++ drop n dst)
  else stop Undefined.

(** [strcpy(dst + off, src)]: the bytes of [src] up to its first NUL, and
    that NUL. *)
Definition strcpy (dst : buffer) (off : Z) (src : list byte) : M buffer :=
  let s := until_nul src ++ [NUL] in
  if (0 <=? off) && (off + len s <=? len dst)
  then ret (take off dst ++ stored s ++ drop (off + len s) dst)
  else stop Undefined.

(** [ch.cwrite(buf, n)]. *)
Definition cwrite (ch : channel) (buf : buffer) (n : Z) : M unit :=
  if (0 <=? n) && (n <=? len buf)
  then emit (Cwrite ch (take n buf))
  else stop Undefined.

(** [ch.cread(buf, n)]: at most [n] of the bytes the peer sent are stored
    at the front of [buf]. *)
Definition cread (ch : channel) (buf : buffer) (n : Z) (sent : list byte) : M buffer :=
  emit (Cread ch n) ;;
  if (0 <=? n) && (n <=? len buf)
  then ret (stored (take n sent) ++ drop (len (take n sent)) buf)
  else stop Undefined.

(** [ch.cread(&v, sizeof v)] into a variable of a scalar type. *)
Definition cread_value {A : Type} (ch : channel) (n : Z) (v : A) : M A :=
  emit (Cread ch n) ;; ret v.

(** [std::string s(buf)]: the bytes before the first NUL of the array;
    running off the stored part of the array is undefined. *)
Fixpoint string_of_buffer (buf : buffer) : M (list byte) :=
  match buf with
  | Some b :: buf' =>
      if Byte.eqb b NUL then ret []
      else s <- string_of_buffer buf' ;; ret (b :: s)
  | _ => stop Undefined
  end.

(** ** The options of the command line

    [getopt] with "p:t:e:f:m:c", [atoi] and [atof] belong to the C
    library: the option loop is given the options in the order [getopt]
    returns them, the numeric ones with the value [atoi] or [atof] made
    of their argument. *)
Inductive option_arg : Type :=
| Opt_p (v : Z)
| Opt_t (v : float)
| Opt_e (v : Z)
| Opt_f (optarg : list byte)
| Opt_c
| Opt_m (v : Z).

Module Opts.
Record locals : Type := Make {
  p : Z;
  t : float;
  c : bool;
  e : Z;
  filename : list byte;
  buffercapacity : Z
}.
End Opts.

Section Client.

Context {common_h : CommonH}.

(** Lines 20-26: the initial values of the locals of [main]. *)
Definition initial : Opts.locals :=
  Opts.Make (-1) (-1)%float false 1 [] MAX_MESSAGE.

(** Lines 29-48: one turn of the [switch]. *)
Definition switch_opt (o : Opts.locals) (opt : option_arg) : Opts.locals :=
  match opt with
  | Opt_p v => Opts.Make v (Opts.t o) (Opts.c o) (Opts.e o) (Opts.filename o) (Opts.buffercapacity o)
  | Opt_t v => Opts.Make (Opts.p o) v (Opts.c o) (Opts.e o) (Opts.filename o) (Opts.buffercapacity o)
  | Opt_e v => Opts.Make (Opts.p o) (Opts.t o) (Opts.c o) v (Opts.filename o) (Opts.buffercapacity o)
  | Opt_f optarg =>
      Opts.Make (Opts.p o) (Opts.t o) (Opts.c o) (Opts.e o) (until_nul optarg) (Opts.buffercapacity o)
  | Opt_c => Opts.Make (Opts.p o) (Opts.t o) true (Opts.e o) (Opts.filename o) (Opts.buffercapacity o)
  | Opt_m v => Opts.Make (Opts.p o) (Opts.t o) (Opts.c o) (Opts.e o) (Opts.filename o) v
  end.

(** Lines 28-49: the [while] loop over [getopt]. *)
Definition getopt_loop (argv : list option_arg) : Opts.locals :=
  fold_left switch_opt argv initial.

Variable w : World.

(** [return status;] from [main] once [chan] is constructed: the
    destructor of [chan] runs. *)
Definition return_ {A : Type} (status : Z) : M A :=
  emit (Chan_destroy chan) ;; stop (Exit status).

(** Lines 65-79: the request for a new channel. *)
Definition new_channel_request (buffercapacity : Z) : M channel :=
  buf <- new_char buffercapacity ;;
  let mtype := NEWCHANNEL_MSG in
  buf <- memcpy buf (repr_MESSAGE_TYPE mtype) sizeof_MESSAGE_TYPE ;;
  cwrite chan buf sizeof_MESSAGE_TYPE ;;
  let buf2 : buffer := repeat None 30 in
  buf2 <- cread chan buf2 30 (reply_newchannel w) ;;
  new_channel_name <- string_of_buffer buf2 ;;
  let new_chan_ := new_chan new_channel_name in
  emit (Chan_open new_chan_) ;;
  ret new_chan_.

(** The three calls that ask for one data point: [memcpy] of the
    message into the buffer, [cwrite] of [sizeof(datamsg)] bytes, [cread]
    of [sizeof(double)] bytes into a [double]. *)
Definition ask_datamsg (active_chan : channel) (buf : buffer) (x : datamsg) : M float :=
  buf <- memcpy buf (repr_datamsg x) sizeof_datamsg ;;
  cwrite active_chan buf sizeof_datamsg ;;
  cread_value active_chan sizeof_double (reply_datapoint w x).

(** Lines 83-91: one data point. *)
Definition request_data_point (active_chan : channel) (buffercapacity p : Z) (t : float) (e : Z)
  : M unit :=
  buf <- new_char buffercapacity ;;
  let x := Datamsg p t e in
  reply <- ask_datamsg active_chan buf x ;;
  emit (Cout (Say_value p t e reply)).

(** Lines 101-126: the loop over the first 1000 data points, with [i]
    the loop variable of type [double]. *)
Fixpoint first_1000_loop (fuel : nat) (active_chan : channel) (buffercapacity p : Z)
    (outfile : list byte) (i : float) : M unit :=
  if (i <? 1000)%float then
    match fuel with
    | O => stop OutOfFuel
    | S fuel' =>
        let time := (i * 0.004)%float in
        buf_ecg1 <- new_char buffercapacity ;;
        buf_ecg2 <- new_char buffercapacity ;;
        let x1 := Datamsg p time 1 in
        val1 <- ask_datamsg active_chan buf_ecg1 x1 ;;
        let x2 := Datamsg p time 2 in
        val2 <- ask_datamsg active_chan buf_ecg2 x2 ;;
        emit (Ofs_row outfile time val1 val2) ;;
        first_1000_loop fuel' active_chan buffercapacity p outfile (i + 1)%float
    end
  else ret tt.

(** Lines 93-129: the first 1000 data points of a person, into a file. *)
Definition request_1000_points (fuel : nat) (active_chan : channel) (buffercapacity p : Z)
  : M unit :=
  let outfile := lit "received/x" ++ to_string p ++ lit ".csv" in
  let is_open := ofs_is_open w outfile in
  emit (Ofs_open outfile is_open) ;;
  (if negb is_open
   then emit (Cout (Say_could_not_open outfile)) ;; return_ 1
   else ret tt) ;;
  first_1000_loop fuel active_chan buffercapacity p outfile 0%float ;;
  emit (Ofs_close outfile).

(** Lines 135-142 and 164-173: the file message and the file name packed
    into a buffer of [sizeof(filemsg) + filename.size() + 1] bytes, and
    written to the channel. *)
Definition send_filemsg (active_chan : channel) (fm : filemsg) (filename : list byte) : M unit :=
  let len_ := to_int (sizeof_filemsg + (len filename + 1)) in
  buf <- new_char len_ ;;
  buf <- memcpy buf (repr_filemsg fm) sizeof_filemsg ;;
  buf <- strcpy buf sizeof_filemsg (c_str filename) ;;
  cwrite active_chan buf len_.

(** Lines 159-183: the loop over the chunks of the file, with [offset]
    the loop variable of type [__int64_t]. *)
Fixpoint chunk_loop (fuel : nat) (active_chan : channel) (buffercapacity : Z)
    (filename outputfile : list byte) (filelen offset : Z) : M unit :=
  if offset <? filelen then
    match fuel with
    | O => stop OutOfFuel
    | S fuel' =>
        let length := buffercapacity in
        let length :=
          if to_int64 (offset + length) >? filelen
          then to_int (to_int64 (filelen - offset))
          else length in
        let fm := Filemsg offset length in
        send_filemsg active_chan fm filename ;;
        buf4 <- new_char length ;;
        buf4 <- cread active_chan buf4 length (reply_chunk w filename offset length) ;;
        emit (Ofs_write outputfile (take length buf4)) ;;
        chunk_loop fuel' active_chan buffercapacity filename outputfile filelen
          (to_int64 (offset + buffercapacity))
    end
  else ret tt.

(** Lines 134-185: the transfer of a file. *)
Definition request_file (fuel : nat) (active_chan : channel) (buffercapacity : Z)
    (filename : list byte) : M unit :=
  let fm := Filemsg 0 0 in
  send_filemsg active_chan fm filename ;;
  filelen <- cread_value active_chan sizeof_int64 (reply_filelen w filename) ;;
  emit (Cout (Say_file_length filename filelen)) ;;
  let outputfile := lit "received/" ++ filename in
  let is_open := ofs_is_open w outputfile in
  emit (Ofs_open outputfile is_open) ;;
  (if negb is_open
   then emit (Cout (Say_could_not_open outputfile)) ;; return_ 1
   else ret tt) ;;
  chunk_loop fuel active_chan buffercapacity filename outputfile filelen 0 ;;
  emit (Ofs_close outputfile).

(** Lines 190-194: the QUIT message, written from the variable [m]. *)
Definition closing_the_channel (active_chan : channel) (c : bool) : M unit :=
  let m := QUIT_MSG in
  emit (Cout (Say_closing (name active_chan))) ;;
  cwrite active_chan (stored (repr_MESSAGE_TYPE m)) sizeof_MESSAGE_TYPE ;;
  (if c then emit (Chan_delete active_chan) else ret tt).

(** [main], in the parent process of the [fork] of line 52: the child
    becomes the server, started with the capacity (or says that it
    could not and returns 1, with no channel of its own).  A [delete[]]
    of a buffer is no event. *)
Definition main (fuel : nat) (argv : list option_arg) : M unit :=
  let o := getopt_loop argv in
  let p := Opts.p o in
  let t := Opts.t o in
  let c := Opts.c o in
  let e := Opts.e o in
  let filename := Opts.filename o in
  let buffercapacity := Opts.buffercapacity o in
  emit (Fork_exec [lit "./server"; lit "-m"; to_string buffercapacity]) ;;
  emit (Chan_open chan) ;;
  active_chan <- (if c then new_channel_request buffercapacity else ret chan) ;;
  (if (p >=? 0) && (0 <=? t)%float
   then request_data_point active_chan buffercapacity p t e
   else if p >=? 0
   then request_1000_points fuel active_chan buffercapacity p
   else ret tt) ;;
  (if len filename >? 0
   then request_file fuel active_chan buffercapacity filename
   else ret tt) ;;
  closing_the_channel active_chan c ;;
  return_ 0.

End Client.

(** ** An instance of common.h

    Modelled from the spec: the wire encoding of the messages of
    [common.h], which is not part of the sources at hand: a fixed-width
    tag and fixed-width fields in little-endian order, laid out as a C
    compiler for x86-64 Linux lays the structs out (a four-byte tag, the
    fields at their natural alignment, the padding zeroed; both structs
    take 24 bytes), and 256 bytes for [MAX_MESSAGE]. *)

Fixpoint le_bytes (n : nat) (z : Z) : list byte :=
  match n with
  | O => []
  | S n' =>
      match Byte.of_N (Z.to_N (z mod 256)) with
      | Some b => b
      | None => x00
      end :: le_bytes n' (z / 256)
  end.

(** The binary64 encoding of a [double]. *)
Definition bits_of_double (f : float) : Z :=
  match classify f with
  | FloatClass.PZero => 0
  | FloatClass.NZero => 2 ^ 63
  | FloatClass.PInf => 2047 * 2 ^ 52
  | FloatClass.NInf => 2 ^ 63 + 2047 * 2 ^ 52
  | FloatClass.NaN => 2047 * 2 ^ 52 + 2 ^ 51
  | _ =>
      let sign := if (f <? 0)%float then 2 ^ 63 else 0 in
      let (m, e) := frshiftexp (abs f) in
      let mant := Uint63.to_Z (normfr_mantissa m) in
      let ex := Uint63.to_Z e - 2101 in
      if ex + 1022 >? 0
      then sign + (ex + 1022) * 2 ^ 52 + (mant - 2 ^ 52)
      else sign + Z.shiftr mant (- (ex + 1021))
  end.

Definition tag_of (m : MESSAGE_TYPE) : Z :=
  match m with
  | DATA_MSG => 0
  | FILE_MSG => 1
  | NEWCHANNEL_MSG => 2
  | QUIT_MSG => 3
  end.

Definition x86_64_MESSAGE_TYPE (m : MESSAGE_TYPE) : list byte := le_bytes 4 (tag_of m).

Definition x86_64_datamsg (x : datamsg) : list byte :=
  le_bytes 4 (tag_of DATA_MSG) ++ le_bytes 4 (person x)
  ++ le_bytes 8 (bits_of_double (seconds x))
  ++ le_bytes 4 (ecgno x) ++ le_bytes 4 0.

Definition x86_64_filemsg (fm : filemsg) : list byte :=
  le_bytes 4 (tag_of FILE_MSG) ++ le_bytes 4 0
  ++ le_bytes 8 (fm_offset fm)
  ++ le_bytes 4 (fm_length fm) ++ le_bytes 4 0.

(** Modelled from the spec: [common.h], which is not part of the sources
    at hand, with the encodings above. *)
Definition x86_64 : CommonH.
Proof.
  refine {| MAX_MESSAGE := 256;
            sizeof_MESSAGE_TYPE := 4;
            sizeof_datamsg := 24;
            sizeof_filemsg := 24;
            repr_MESSAGE_TYPE := x86_64_MESSAGE_TYPE;
            repr_datamsg := x86_64_datamsg;
            repr_filemsg := x86_64_filemsg |}.
  - intros m. reflexivity.
  - intros x. reflexivity.
  - intros fm. reflexivity.
  - intros m m' E.
    destruct m, m'; try reflexivity; vm_compute in E; discriminate E.
Defined.

(** ** The notions the properties are stated with *)

(** The chunks of the file transfer as the specification words them:
    from offset 0, while the offset is below the total length, a chunk
    of [min(capacity, total_length - offset)] bytes is asked for and
    the offset advances by the chunk.  [tiles C L off plan] holds when
    [plan] is that sequence of pairs (offset, chunk) from [off] on, and
    ends with the offset at [L]. *)
Inductive tiles (C L : Z) : Z -> list (Z * Z) -> Prop :=
| tiles_done : tiles C L L []
| tiles_step (off : Z) (plan : list (Z * Z)) :
    off < L ->
    tiles C L (off + Z.min C (L - off)) plan ->
    tiles C L off ((off, Z.min C (L - off)) :: plan).

(** The same sequence as a function, cut after [n] chunks. *)
Fixpoint chunks_from (n : nat) (C L off : Z) : list (Z * Z) :=
  match n with
  | O => []
  | S n' =>
      if off <? L
      then let chunk := Z.min C (L - off) in
           (off, chunk) :: chunks_from n' C L (off + chunk)
      else []
  end.

(** With a capacity of at least one byte no transfer takes more chunks
    than the file has bytes. *)
Definition chunk_plan (C L : Z) : list (Z * Z) := chunks_from (Z.to_nat L) C L 0.

(** The sum of the chunk lengths of a plan. *)
Definition total_length (plan : list (Z * Z)) : Z :=
  fold_right (fun r acc => snd r + acc) 0 plan.

(** The content of a buffer of [n] cells after [cread] stored what was
    sent at its front. *)
Definition received (n : Z) (sent : list byte) : list cell :=
  stored (take n sent) ++ repeat None (Z.to_nat (n - len (take n sent))).

Section Notions.

Context {common_h : CommonH}.

(** The bytes of a FILE request: the struct, the file name, a NUL. *)
Definition file_request (fm : filemsg) (filename : list byte) : list cell :=
  stored (repr_filemsg fm ++ filename ++ [NUL]).

(** The file name fits: the length of the request is an [int]. *)
Definition fits (filename : list byte) : Prop :=
  sizeof_filemsg + len filename + 1 <= INT_MAX.

(** The events of one turn of the chunk loop. *)
Definition chunk_events (w : World) (ch : channel) (filename outputfile : list byte)
    (r : Z * Z) : list event :=
  [ Cwrite ch (file_request (Filemsg (fst r) (snd r)) filename);
    Cread ch (snd r);
    Ofs_write outputfile (received (snd r) (reply_chunk w filename (fst r) (snd r))) ].

(** The bytes of a request that is a bare tag. *)
Definition tag_request (m : MESSAGE_TYPE) : list cell := stored (repr_MESSAGE_TYPE m).

(** The bytes of a DATAPOINT request. *)
Definition data_request (x : datamsg) : list cell := stored (repr_datamsg x).

(** The events of the length probe and of the opening of the output file. *)
Definition probe_events (ch : channel) (filename : list byte) (filelen : Z) : list event :=
  [ Cwrite ch (file_request (Filemsg 0 0) filename);
    Cread ch sizeof_int64;
    Cout (Say_file_length filename filelen);
    Ofs_open (lit "received/" ++ filename) true ].

End Notions.

(** Modelled from the spec: the server side of the file transfer, which
    is not part of the sources at hand; it answers the length probe with
    the length of the file, and a chunk request with the bytes of the
    file in the requested range. *)
Definition serves (w : World) (filename file : list byte) : Prop :=
  reply_filelen w filename = len file /\
  forall off n, reply_chunk w filename off n = take n (drop off file).

Definition path_eqb (a b : list byte) : bool :=
  if list_eq_dec Byte.byte_eq_dec a b then true else false.

(** What the run wrote into the file at [path], in order. *)
Fixpoint ofs_written (path : list byte) (tr : list event) : list cell :=
  match tr with
  | [] => []
  | Ofs_write path' data :: tr' =>
      if path_eqb path path' then data ++ ofs_written path tr' else ofs_written path tr'
  | _ :: tr' => ofs_written path tr'
  end.

(** The one-in-flight discipline: [pending] lists the channels with a
    request that has not been answered; a write needs the channel not
    to be pending, a read needs it to be. *)
Fixpoint in_flight (pending : list channel) (tr : list event) : option (list channel) :=
  match tr with
  | [] => Some pending
  | Cwrite ch _ :: tr' =>
      if existsb (channel_eqb ch) pending then None
      else in_flight (ch :: pending) tr'
  | Cread ch _ :: tr' =>
      if existsb (channel_eqb ch) pending
      then in_flight (filter (fun ch' => negb (channel_eqb ch ch')) pending) tr'
      else None
  | _ :: tr' => in_flight pending tr'
  end.

Definition one_in_flight (tr : list event) : bool :=
  match in_flight [] tr with
  | Some _ => true
  | None => false
  end.

(** The pending channels when [ch] has ([b] true) or has not ([b]
    false) a request in flight, and [rest] are the other ones. *)
Definition pending_with (ch : channel) (b : bool) (rest : list channel) : list channel :=
  if b then ch :: rest else rest.

(** A computation that keeps the discipline on [ch]: started with [ch]
    in the state [b], it never breaks the discipline, and when it goes
    on it leaves [ch] in the state [b'] and the other channels as they
    were. *)
Definition sync (ch : channel) (b : bool) {A : Type} (m : M A) (b' : bool) : Prop :=
  forall rest, existsb (channel_eqb ch) rest = false ->
    match result m with
    | Ret _ => in_flight (pending_with ch b rest) (trace m) = Some (pending_with ch b' rest)
    | _ => in_flight (pending_with ch b rest) (trace m) <> None
    end.

(** The events that neither write to a channel nor read from one. *)
Definition off_channel (ev : event) : Prop :=
  match ev with
  | Cwrite _ _ | Cread _ _ => False
  | _ => True
  end.

(** An event of a channel is one of a data point: the request is the
    bytes of a [datamsg], the reply is read as the bytes of a [double]. *)
Definition data_point_event {common_h : CommonH} (ev : event) : Prop :=
  match ev with
  | Cwrite _ msg =>
      exists x, msg = stored (repr_datamsg x) /\ len msg = sizeof_datamsg
  | Cread _ n => n = 8
  | _ => True
  end.

(** The events of channel [ch] only. *)
Definition on_channel (ch : channel) (ev : event) : Prop :=
  match ev with
  | Cwrite ch' _ | Cread ch' _ => ch' = ch
  | _ => True
  end.

(** The channel events of a run that asked for a new channel named
    [new_name]: on [chan], the NEWCHANNEL tag and the read of 30 bytes;
    everything else on the new channel. *)
Definition handshake_or_new {common_h : CommonH} (new_name : list byte) (ev : event) : Prop :=
  match ev with
  | Cwrite ch msg =>
      (ch = chan /\ msg = stored (repr_MESSAGE_TYPE NEWCHANNEL_MSG)) \/ ch = new_chan new_name
  | Cread ch n => (ch = chan /\ n = 30) \/ ch = new_chan new_name
  | _ => True
  end.

(** A computation that returns from [main] with status 1 if it does. *)
Definition exits_only_1 {A : Type} (m : M A) : Prop :=
  forall s, result m = Exit s -> s = 1.

(** A property of the value a computation goes on with. *)
Definition returns {A : Type} (Q : A -> Prop) (m : M A) : Prop :=
  forall a, result m = Ret a -> Q a.

(** The run after the length of the file has been printed as 0. *)
Definition with_length_0 (ev : event) : event :=
  match ev with
  | Cout (Say_file_length filename _) => Cout (Say_file_length filename 0)
  | _ => ev
  end.

(** Every message written is a FILE request for [filename]. *)
Definition file_requests_only {common_h : CommonH} (filename : list byte) (ev : event) : Prop :=
  forall ch msg, ev = Cwrite ch msg ->
    exists fm, msg = stored (repr_filemsg fm ++ c_str filename).


(** The messages written to the channels of a given name. *)
Fixpoint written_to (channel_name : list byte) (tr : list event) : list (list cell) :=
  match tr with
  | [] => []
  | Cwrite ch msg :: tr' =>
      if path_eqb channel_name (name ch)
      then msg :: written_to channel_name tr'
      else written_to channel_name tr'
  | _ :: tr' => written_to channel_name tr'
  end.

(** A property of every event of a run. *)
Definition always {A : Type} (P : event -> Prop) (m : M A) : Prop := Forall P (trace m).

(** Modelled from the spec: a server, which is not part of the sources
    at hand, that holds one file; it names the new channel "data1_",
    answers every data point with zero, and every output file opens. *)
Definition file_server (file : list byte) : World :=
  {| reply_newchannel := c_str (lit "data1_");
     reply_datapoint := fun _ => 0%float;
     reply_filelen := fun _ => len file;
     reply_chunk := fun _ off n => take n (drop off file);
     ofs_is_open := fun _ => true |}.

(** The same server when the directory "received" is missing: no output
    file opens. *)
Definition without_received_directory (w : World) : World :=
  {| reply_newchannel := reply_newchannel w;
     reply_datapoint := reply_datapoint w;
     reply_filelen := reply_filelen w;
     reply_chunk := reply_chunk w;
     ofs_is_open := fun _ => false |}.

(** Modelled from the spec: a server that answers the length probe of a
    file it does not have with the sentinel -1. *)
Definition file_not_found_server : World :=
  {| reply_newchannel := c_str (lit "data1_");
     reply_datapoint := fun _ => 0%float;
     reply_filelen := fun _ => -1;
     reply_chunk := fun _ _ _ => [];
     ofs_is_open := fun _ => true |}.

(** A file of 2500 bytes. *)
Definition sample_file : list byte := repeat "a"%byte 2500.

(** ** Further notions: the option loop, the loops, the files *)

(** The letter of an option, as in the string given to [getopt]. *)
Definition letter (opt : option_arg) : string :=
  match opt with
  | Opt_p _ => "p"
  | Opt_t _ => "t"
  | Opt_e _ => "e"
  | Opt_f _ => "f"
  | Opt_c => "c"
  | Opt_m _ => "m"
  end.

(** The values the loop variable [i] of lines 101-126 takes, and whether
    the loop has ended within the fuel. *)
Fixpoint loop_values (fuel : nat) (i : float) : list float * bool :=
  if (i <? 1000)%float then
    match fuel with
    | O => ([], false)
    | S fuel' => let (l, ended) := loop_values fuel' (i + 1)%float in (i :: l, ended)
    end
  else ([], true).

(** The [double] of a natural number. *)
Definition double_of_nat (k : nat) : float := of_uint63 (Uint63.of_Z (Z.of_nat k)).

(** The events of one turn of the loop over the data points. *)
Definition turn_events {common_h : CommonH} (w : World) (ch : channel) (p : Z)
    (outfile : list byte) (i : float) : list event :=
  [ Cwrite ch (stored (repr_datamsg (Datamsg p (i * 0.004)%float 1)));
    Cread ch 8;
    Cwrite ch (stored (repr_datamsg (Datamsg p (i * 0.004)%float 2)));
    Cread ch 8;
    Ofs_row outfile (i * 0.004)%float
      (reply_datapoint w (Datamsg p (i * 0.004)%float 1))
      (reply_datapoint w (Datamsg p (i * 0.004)%float 2)) ].

(** The chunks of a transfer in closed form: chunk [k] starts at
    [k * C], and there are as many as the quotient of [L] by [C], rounded
    up. *)
Definition chunk_count (C L : Z) : nat := Z.to_nat ((L + C - 1) / C).

Definition nth_chunk (C L : Z) (k : nat) : Z * Z :=
  (Z.of_nat k * C, Z.min C (L - Z.of_nat k * C)).

Definition chunks_in_closed_form (C L : Z) : list (Z * Z) :=
  map (nth_chunk C L) (seq 0 (chunk_count C L)).




(** The discipline of the output files: [opened] is the file that is
    open, if any; a file is opened when none is, a row or a block of
    bytes goes to the open file, and the open file is the one closed. *)
Fixpoint ofs_state (opened : option (list byte)) (tr : list event)
  : option (option (list byte)) :=
  match tr with
  | [] => Some opened
  | Ofs_open path ok :: tr' =>
      match opened with
      | None => ofs_state (if ok then Some path else None) tr'
      | Some _ => None
      end
  | Ofs_row path _ _ _ :: tr' | Ofs_write path _ :: tr' =>
      match opened with
      | Some path' => if path_eqb path path' then ofs_state opened tr' else None
      | None => None
      end
  | Ofs_close path :: tr' =>
      match opened with
      | Some path' => if path_eqb path path' then ofs_state None tr' else None
      | None => None
      end
  | _ :: tr' => ofs_state opened tr'
  end.

(** A computation that keeps the discipline of the output files from
    the state [opened]: it goes on in the state [opened'], and it
    returns from [main] with no file open. *)
Definition keeps_files {A : Type} (opened : option (list byte)) (m : M A)
    (opened' : option (list byte)) : Prop :=
  match result m with
  | Ret _ => ofs_state opened (trace m) = Some opened'
  | Exit _ => ofs_state opened (trace m) = Some None
  | _ => ofs_state opened (trace m) <> None
  end.

(** Lines 62-79: the choice of the active channel. *)
Definition establish {common_h : CommonH} (w : World) (o : Opts.locals) : M channel :=
  if Opts.c o then new_channel_request w (Opts.buffercapacity o) else ret chan.

(** The first two events of every run: the server is started with the
    capacity, and [chan] is opened. *)
Definition opening_events {common_h : CommonH} (o : Opts.locals) : list event :=
  [ Fork_exec [lit "./server"; lit "-m"; to_string (Opts.buffercapacity o)];
    Chan_open chan ].

(** The last events of a run that ends with status 0. *)
Definition closing_events {common_h : CommonH} (active_chan : channel) (c : bool) : list event :=
  [ Cout (Say_closing (name active_chan));
    Cwrite active_chan (stored (repr_MESSAGE_TYPE QUIT_MSG)) ]
    ++ (if c then [Chan_delete active_chan] else [])
    ++ [Chan_destroy chan].

(** The events that write no block of bytes to an output file. *)
Definition writes_no_block (ev : event) : Prop :=
  match ev with
  | Ofs_write _ _ => False
  | _ => True
  end.


(** A computation that does not return from [main]. *)
Definition never_exits {A : Type} (m : M A) : Prop := forall s, result m <> Exit s.

(** The events that do not touch an output file. *)
Definition no_file_event (ev : event) : Prop :=
  match ev with
  | Ofs_open _ _ | Ofs_row _ _ _ _ | Ofs_write _ _ | Ofs_close _ => False
  | _ => True
  end.


(** A server that announces a length and then sends no byte for any
    chunk. *)
Definition silent_server (announced : Z) : World :=
  {| reply_newchannel := c_str (lit "data1_");
     reply_datapoint := fun _ => 0%float;
     reply_filelen := fun _ => announced;
     reply_chunk := fun _ _ _ => [];
     ofs_is_open := fun _ => true |}.

(** ** Further notions: replies that are read, the parts of a session *)

(** The one-in-flight discipline with the replies read: as [in_flight],
    and a read answers the pending request only if it takes at least
    one byte from the channel. *)
Fixpoint replies_read (pending : list channel) (tr : list event) : option (list channel) :=
  match tr with
  | [] => Some pending
  | Cwrite ch _ :: tr' =>
      if existsb (channel_eqb ch) pending then None
      else replies_read (ch :: pending) tr'
  | Cread ch n :: tr' =>
      if (0 <? n) && existsb (channel_eqb ch) pending
      then replies_read (filter (fun ch' => negb (channel_eqb ch ch')) pending) tr'
      else None
  | _ :: tr' => replies_read pending tr'
  end.

Definition every_request_is_answered (tr : list event) : bool :=
  match replies_read [] tr with
  | Some _ => true
  | None => false
  end.

(** A read that takes at least one byte. *)
Definition reads_a_reply (ev : event) : Prop :=
  match ev with
  | Cread _ n => 0 < n
  | _ => True
  end.

(** The channel events of a run, the content of the messages left out. *)
Definition channel_events (tr : list event) : list event :=
  filter (fun ev => match ev with Cwrite _ _ | Cread _ _ => true | _ => false end) tr.



(** ** Arithmetic of the machine integers *)

Lemma wrap_in_range (w z : Z) :
  0 < w -> - 2 ^ (w - 1) <= z < 2 ^ (w - 1) -> wrap w z = z.
Proof.
  intros Hw Hz. unfold wrap.
  assert (E : 2 ^ w = 2 * 2 ^ (w - 1)).
  { replace w with (Z.succ (w - 1)) at 1 by lia. apply Z.pow_succ_r. lia. }
  rewrite Z.mod_small; lia.
Qed.

Lemma to_int_in_range (z : Z) : - 2 ^ 31 <= z <= INT_MAX -> to_int z = z.
Proof.
  intros Hz. unfold to_int. apply wrap_in_range; [lia|].
  unfold INT_MAX in Hz. change (32 - 1) with 31. lia.
Qed.

Lemma to_int64_in_range (z : Z) : - 2 ^ 63 <= z <= INT64_MAX -> to_int64 z = z.
Proof.
  intros Hz. unfold to_int64. apply wrap_in_range; [lia|].
  unfold INT64_MAX in Hz. change (64 - 1) with 63. lia.
Qed.

(** ** Lists, buffers and C strings *)

Lemma len_nonneg {A : Type} (l : list A) : 0 <= len l.
Proof. unfold len. lia. Qed.

Lemma len_app {A : Type} (l l' : list A) : len (l ++ l') = len l + len l'.
Proof. unfold len. rewrite length_app. lia. Qed.

Lemma len_stored (l : list byte) : len (stored l) = len l.
Proof. unfold len, stored. now rewrite length_map. Qed.

Lemma len_repeat {A : Type} (x : A) (n : Z) : 0 <= n -> len (repeat x (Z.to_nat n)) = n.
Proof. intros Hn. unfold len. rewrite repeat_length. lia. Qed.

Lemma stored_app (l l' : list byte) : stored (l ++ l') = stored l ++ stored l'.
Proof. apply map_app. Qed.

Lemma take_len_app {A : Type} (l l' : list A) : take (len l) (l ++ l') = l.
Proof.
  unfold take, len. rewrite Nat2Z.id.
  rewrite firstn_app, Nat.sub_diag, firstn_all. simpl. apply app_nil_r.
Qed.

Lemma take_len {A : Type} (l : list A) : take (len l) l = l.
Proof. unfold take, len. rewrite Nat2Z.id. apply firstn_all. Qed.

Lemma drop_len_app {A : Type} (l l' : list A) : drop (len l) (l ++ l') = l'.
Proof.
  unfold drop, len. rewrite Nat2Z.id.
  rewrite skipn_app, Nat.sub_diag, skipn_all. reflexivity.
Qed.

Lemma drop_len {A : Type} (l : list A) : drop (len l) l = [].
Proof. unfold drop, len. rewrite Nat2Z.id. apply skipn_all. Qed.

Lemma drop_repeat {A : Type} (x : A) (n m : Z) :
  0 <= n <= m -> drop n (repeat x (Z.to_nat m)) = repeat x (Z.to_nat (m - n)).
Proof.
  intros Hn. unfold drop.
  replace (Z.to_nat m) with (Z.to_nat n + Z.to_nat (m - n))%nat by lia.
  rewrite repeat_app.
  rewrite <- (repeat_length x (Z.to_nat n)) at 1.
  rewrite skipn_app, Nat.sub_diag, skipn_all. reflexivity.
Qed.

Lemma until_nul_c_str (s : list byte) : ~ In NUL s -> until_nul (c_str s) = s.
Proof.
  unfold c_str. induction s as [|b s IH]; intros Hs; simpl.
  - reflexivity.
  - destruct (Byte.eqb b NUL) eqn:E.
    + apply Byte.byte_dec_bl in E. exfalso. apply Hs. left. exact E.
    + f_equal. apply IH. intros Hin. apply Hs. right. exact Hin.
Qed.

Lemma until_nul_no_nul (s : list byte) : ~ In NUL (until_nul s).
Proof.
  induction s as [|b s IH]; simpl; [tauto|].
  destruct (Byte.eqb b NUL) eqn:E; simpl; [tauto|].
  intros [Hb|Hin]; [|exact (IH Hin)].
  subst b. discriminate E.
Qed.

(** ** Runs: the laws of [bind] *)

Lemma bind_ret {A B : Type} (a : A) (k : A -> M B) : bind (ret a) k = k a.
Proof. unfold bind, ret. destruct (k a) as [tr o]. reflexivity. Qed.

Lemma bind_run {A B : Type} (m : M A) (k : A -> M B) (tr : list event) (a : A) :
  m = (tr, Ret a) -> bind m k = (tr ++ trace (k a), result (k a)).
Proof. intros ->. unfold bind. destruct (k a) as [tr' o]. reflexivity. Qed.

Lemma bind_emit {B : Type} (ev : event) (k : unit -> M B) :
  bind (emit ev) k = (ev :: trace (k tt), result (k tt)).
Proof. unfold emit. now rewrite (bind_run _ _ [ev] tt eq_refl). Qed.

Lemma trace_bind {A B : Type} (m : M A) (k : A -> M B) :
  trace (bind m k) =
  trace m ++ match result m with Ret a => trace (k a) | _ => [] end.
Proof.
  destruct m as [tr [a|s| | | ]]; simpl; try (now rewrite app_nil_r).
  destruct (k a) as [tr' o]. reflexivity.
Qed.

Lemma result_bind {A B : Type} (m : M A) (k : A -> M B) :
  result (bind m k) =
  match result m with
  | Ret a => result (k a)
  | Exit s => Exit s
  | Throw => Throw
  | Undefined => Undefined
  | OutOfFuel => OutOfFuel
  end.
Proof.
  destruct m as [tr [a|s| | | ]]; simpl; try reflexivity.
  destruct (k a) as [tr' o]. reflexivity.
Qed.

Ltac run H := rewrite (bind_run _ _ _ _ H); cbv beta; cbn [trace result fst snd].
Ltac run_emit := rewrite bind_emit; cbv beta; cbn [trace result fst snd].
Ltac run_ret := rewrite bind_ret; cbv beta.

(** ** The memory and channel primitives where they are defined *)

Lemma cread_value_run {A : Type} (ch : channel) (n : Z) (v : A) :
  cread_value ch n v = ([Cread ch n], Ret v).
Proof. reflexivity. Qed.

Lemma new_char_run (n : Z) : 0 <= n -> new_char n = ret (repeat None (Z.to_nat n)).
Proof.
  intros Hn. unfold new_char.
  destruct (Z.ltb_spec n 0); [lia|reflexivity].
Qed.

Lemma memcpy_run (dst : buffer) (src : list byte) (n : Z) :
  len src = n -> n <= len dst -> memcpy dst src n = ret (stored src ++ drop n dst).
Proof.
  intros Hsrc Hdst. unfold memcpy.
  pose proof (len_nonneg src) as Hpos.
  destruct (Z.leb_spec 0 n); [|lia].
  destruct (Z.leb_spec n (len src)); [|lia].
  destruct (Z.leb_spec n (len dst)); [|lia].
  simpl. now rewrite <- Hsrc, take_len.
Qed.

Lemma strcpy_run (front : list byte) (s : list byte) (off : Z) :
  ~ In NUL s -> off = len front ->
  strcpy (stored front ++ repeat None (Z.to_nat (len s + 1))) off (c_str s)
  = ret (stored (front ++ s ++ [NUL])).
Proof.
  intros Hs ->. unfold strcpy.
  rewrite until_nul_c_str by exact Hs.
  pose proof (len_nonneg front) as Hfront.
  pose proof (len_nonneg s) as Hlen.
  assert (E : len (s ++ [NUL]) = len s + 1) by (rewrite len_app; reflexivity).
  rewrite E, len_app, len_stored, len_repeat by lia.
  destruct (Z.leb_spec 0 (len front)); [|lia].
  destruct (Z.leb_spec (len front + (len s + 1)) (len front + (len s + 1))); [|lia].
  simpl. f_equal.
  rewrite <- (len_stored front) at 1. rewrite take_len_app.
  replace (len front + (len s + 1))
    with (len (stored front ++ repeat (@None byte) (Z.to_nat (len s + 1)))).
  - rewrite drop_len, app_nil_r. now rewrite <- stored_app.
  - rewrite len_app, len_stored, len_repeat; lia.
Qed.

Lemma cwrite_run (ch : channel) (buf : buffer) (n : Z) :
  n = len buf -> cwrite ch buf n = emit (Cwrite ch buf).
Proof.
  intros ->. unfold cwrite. pose proof (len_nonneg buf).
  destruct (Z.leb_spec 0 (len buf)); [|lia].
  destruct (Z.leb_spec (len buf) (len buf)); [|lia].
  simpl. now rewrite take_len.
Qed.

Lemma cwrite_front (ch : channel) (msg : list byte) (rest : buffer) (n : Z) :
  n = len msg -> cwrite ch (stored msg ++ rest) n = emit (Cwrite ch (stored msg)).
Proof.
  intros ->. unfold cwrite. pose proof (len_nonneg msg). pose proof (len_nonneg rest).
  rewrite len_app, len_stored.
  destruct (Z.leb_spec 0 (len msg)); [|lia].
  destruct (Z.leb_spec (len msg) (len msg + len rest)); [|lia].
  simpl. rewrite <- (len_stored msg). now rewrite take_len_app.
Qed.

Lemma len_take_le {A : Type} (n : Z) (l : list A) : 0 <= n -> len (take n l) <= n.
Proof.
  intros Hn. unfold len, take.
  pose proof (firstn_le_length (Z.to_nat n) l). lia.
Qed.

Lemma len_received (n : Z) (sent : list byte) : 0 <= n -> len (received n sent) = n.
Proof.
  intros Hn. unfold received. pose proof (len_take_le n sent Hn).
  pose proof (len_nonneg (take n sent)).
  rewrite len_app, len_stored, len_repeat; lia.
Qed.

Lemma take_received (n : Z) (sent : list byte) :
  0 <= n -> take n (received n sent) = received n sent.
Proof.
  intros Hn. rewrite <- (len_received n sent Hn) at 1. apply take_len.
Qed.

Lemma cread_run (ch : channel) (n : Z) (sent : list byte) :
  0 <= n ->
  cread ch (repeat None (Z.to_nat n)) n sent = ([Cread ch n], Ret (received n sent)).
Proof.
  intros Hn. unfold cread. rewrite bind_emit.
  rewrite len_repeat by exact Hn.
  destruct (Z.leb_spec 0 n); [|lia].
  destruct (Z.leb_spec n n); [|lia].
  simpl. unfold received.
  pose proof (len_take_le n sent Hn). pose proof (len_nonneg (take n sent)).
  rewrite drop_repeat by lia. reflexivity.
Qed.

Lemma string_of_buffer_run (l : list byte) (rest : buffer) :
  In NUL l -> string_of_buffer (stored l ++ rest) = ret (until_nul l).
Proof.
  induction l as [|b l IH]; intros Hin; [destruct Hin|].
  simpl. destruct (Byte.eqb b NUL) eqn:E; [reflexivity|].
  destruct Hin as [Hb|Hin]; [subst b; discriminate E|].
  rewrite (IH Hin). now rewrite bind_ret.
Qed.

(** ** The requests where they are defined *)

Section Requests.

Context {common_h : CommonH}.
Variable w : World.

Lemma sizeof_filemsg_nonneg : 0 <= sizeof_filemsg.
Proof. rewrite <- (repr_filemsg_size (Filemsg 0 0)). apply len_nonneg. Qed.

Lemma sizeof_datamsg_nonneg : 0 <= sizeof_datamsg.
Proof. rewrite <- (repr_datamsg_size (Datamsg 0 0 0)). apply len_nonneg. Qed.

Lemma sizeof_MESSAGE_TYPE_nonneg : 0 <= sizeof_MESSAGE_TYPE.
Proof. rewrite <- (repr_MESSAGE_TYPE_size QUIT_MSG). apply len_nonneg. Qed.

Lemma len_file_request (fm : filemsg) (filename : list byte) :
  len (file_request fm filename) = sizeof_filemsg + len filename + 1.
Proof.
  unfold file_request. rewrite len_stored, !len_app, repr_filemsg_size.
  change (len [NUL]) with 1. lia.
Qed.

Lemma send_filemsg_run (ch : channel) (fm : filemsg) (filename : list byte) :
  ~ In NUL filename -> fits filename ->
  send_filemsg ch fm filename = emit (Cwrite ch (file_request fm filename)).
Proof.
  intros Hnul Hfits. unfold fits in Hfits. unfold send_filemsg.
  pose proof sizeof_filemsg_nonneg as Hsz. pose proof (len_nonneg filename) as Hlen.
  rewrite to_int_in_range by lia.
  rewrite new_char_run, bind_ret by lia.
  rewrite memcpy_run, bind_ret;
    [| apply repr_filemsg_size | rewrite len_repeat; lia].
  rewrite drop_repeat by lia.
  replace (sizeof_filemsg + (len filename + 1) - sizeof_filemsg) with (len filename + 1) by lia.
  rewrite strcpy_run, bind_ret;
    [| exact Hnul | symmetry; apply repr_filemsg_size].
  apply cwrite_run.
  fold (file_request fm filename). rewrite len_file_request. lia.
Qed.

Lemma ask_datamsg_run (ch : channel) (n : Z) (x : datamsg) :
  sizeof_datamsg <= n ->
  ask_datamsg w ch (repeat None (Z.to_nat n)) x
  = ([Cwrite ch (data_request x); Cread ch sizeof_double], Ret (reply_datapoint w x)).
Proof.
  intros Hn. pose proof sizeof_datamsg_nonneg as Hsz. unfold ask_datamsg.
  rewrite memcpy_run, bind_ret;
    [| apply repr_datamsg_size | rewrite len_repeat; lia].
  rewrite cwrite_front by (symmetry; apply repr_datamsg_size).
  rewrite bind_emit. unfold cread_value. rewrite bind_emit. reflexivity.
Qed.

End Requests.

(** ** The chunk plan *)

Lemma chunks_from_done (n : nat) (C L off : Z) : L <= off -> chunks_from n C L off = [].
Proof.
  intros Hoff. destruct n as [|n]; simpl; [reflexivity|].
  destruct (Z.ltb_spec off L); [lia|reflexivity].
Qed.

Lemma chunks_from_enough (C L : Z) :
  0 < C ->
  forall (n m : nat) (off : Z),
    L - off <= Z.of_nat n * C -> (n <= m)%nat ->
    chunks_from m C L off = chunks_from n C L off.
Proof.
  intros HC. induction n as [|n IH]; intros m off Hn Hm.
  - simpl. apply chunks_from_done. lia.
  - destruct m as [|m]; [lia|]. simpl.
    destruct (Z.ltb_spec off L) as [Hlt|Hge]; [|reflexivity].
    f_equal. apply IH; [|lia].
    rewrite Nat2Z.inj_succ, Z.mul_succ_l in Hn.
    pose proof (Z.mul_nonneg_nonneg (Z.of_nat n) C ltac:(lia) ltac:(lia)).
    lia.
Qed.

Lemma chunks_from_tiles (C L : Z) :
  0 < C ->
  forall (n : nat) (off : Z),
    off <= L -> L - off <= Z.of_nat n * C ->
    tiles C L off (chunks_from n C L off).
Proof.
  intros HC. induction n as [|n IH]; intros off Hoff Hn.
  - simpl. replace off with L by lia. constructor.
  - simpl. destruct (Z.ltb_spec off L) as [Hlt|Hge].
    + constructor; [exact Hlt|].
      rewrite Nat2Z.inj_succ, Z.mul_succ_l in Hn.
      pose proof (Z.mul_nonneg_nonneg (Z.of_nat n) C ltac:(lia) ltac:(lia)).
      apply IH; lia.
    + replace off with L by lia. constructor.
Qed.

Lemma tiles_chunks (C L : Z) (off : Z) (plan : list (Z * Z)) :
  tiles C L off plan ->
  Forall (fun r => fst r < L /\ snd r = Z.min C (L - fst r)) plan.
Proof.
  induction 1 as [|off plan Hlt _ IH]; constructor; [|exact IH].
  simpl. split; [exact Hlt|reflexivity].
Qed.

Lemma tiles_total (C L : Z) (off : Z) (plan : list (Z * Z)) :
  tiles C L off plan -> off + total_length plan = L.
Proof.
  induction 1 as [|off plan Hlt _ IH]; simpl; lia.
Qed.

Lemma tiles_positive (C L : Z) (off : Z) (plan : list (Z * Z)) :
  0 < C -> tiles C L off plan -> Forall (fun r => 1 <= snd r <= C) plan.
Proof.
  intros HC. induction 1 as [|off plan Hlt _ IH]; constructor; [|exact IH].
  simpl. lia.
Qed.

Lemma chunk_plan_tiles (C L : Z) : 0 < C -> 0 <= L -> tiles C L 0 (chunk_plan C L).
Proof.
  intros HC HL. unfold chunk_plan. apply chunks_from_tiles; [exact HC|exact HL|nia].
Qed.

(** The slices of a file along a plan. *)
Lemma take_drop_drop {A : Type} (file : list A) (off n : Z) :
  0 <= off -> 0 <= n -> take n (drop off file) ++ drop (off + n) file = drop off file.
Proof.
  intros Hoff Hn. unfold take, drop.
  rewrite Z2Nat.inj_add by lia. rewrite Nat.add_comm, <- skipn_skipn.
  apply firstn_skipn.
Qed.

Lemma tiles_slices {A : Type} (C L : Z) (file : list A) (off : Z) (plan : list (Z * Z)) :
  0 < C -> 0 <= off -> len file = L ->
  tiles C L off plan ->
  List.concat (map (fun r => take (snd r) (drop (fst r) file)) plan) = drop off file.
Proof.
  intros HC Hoff Hfile Htiles. induction Htiles as [|off plan Hlt _ IH].
  - simpl. rewrite <- Hfile. now rewrite drop_len.
  - simpl. rewrite IH by lia. apply take_drop_drop; lia.
Qed.

Lemma len_drop {A : Type} (l : list A) (n : Z) : 0 <= n <= len l -> len (drop n l) = len l - n.
Proof. intros Hn. unfold len, drop in *. rewrite length_skipn. lia. Qed.

Lemma len_take {A : Type} (l : list A) (n : Z) : 0 <= n <= len l -> len (take n l) = n.
Proof. intros Hn. unfold len, take in *. rewrite length_firstn. lia. Qed.

Lemma take_take {A : Type} (l : list A) (n : Z) : take n (take n l) = take n l.
Proof. unfold take. rewrite firstn_firstn. now rewrite Nat.min_id. Qed.

(** What arrives of a slice of the file that lies within the file. *)
Lemma received_slice (file : list byte) (off n : Z) :
  0 <= off -> 0 <= n -> off + n <= len file ->
  received n (take n (drop off file)) = stored (take n (drop off file)).
Proof.
  intros Hoff Hn Hin. unfold received. rewrite take_take.
  rewrite len_take by (rewrite len_drop; lia).
  rewrite Z.sub_diag. simpl. apply app_nil_r.
Qed.

(** ** The file transfer where it is defined *)

Section Transfer.

Context {common_h : CommonH}.
Variable w : World.
Variable ch : channel.
Variables filename outputfile : list byte.
Variables C L : Z.

Hypothesis capacity_positive : 0 < C <= INT_MAX.
Hypothesis no_overflow : L + C <= INT64_MAX.
Hypothesis filename_no_nul : ~ In NUL filename.
Hypothesis filename_fits : fits filename.

Lemma chunk_loop_done (fuel : nat) (off : Z) :
  L <= off -> chunk_loop w fuel ch C filename outputfile L off = ret tt.
Proof.
  intros Hoff. destruct fuel; simpl;
    destruct (Z.ltb_spec off L); try lia; reflexivity.
Qed.

(** The length the loop computes is the chunk of the plan. *)
Lemma chunk_length (off : Z) :
  0 <= off < L ->
  (if to_int64 (off + C) >? L then to_int (to_int64 (L - off)) else C) = Z.min C (L - off).
Proof.
  intros Hoff. unfold INT_MAX, INT64_MAX in *.
  rewrite to_int64_in_range by (unfold INT64_MAX; lia).
  destruct (Z.gtb_spec (off + C) L) as [Hgt|Hle].
  - rewrite to_int64_in_range by (unfold INT64_MAX; lia).
    rewrite to_int_in_range by (unfold INT_MAX; lia). lia.
  - lia.
Qed.

Lemma chunk_loop_step (fuel : nat) (off : Z) :
  0 <= off < L ->
  chunk_loop w (S fuel) ch C filename outputfile L off
  = (chunk_events w ch filename outputfile (off, Z.min C (L - off))
       ++ trace (chunk_loop w fuel ch C filename outputfile L (off + C)),
     result (chunk_loop w fuel ch C filename outputfile L (off + C))).
Proof.
  intros Hoff. cbn [chunk_loop].
  destruct (Z.ltb_spec off L) as [_|Hge]; [|lia].
  rewrite chunk_length by exact Hoff.
  set (chunk := Z.min C (L - off)).
  assert (Hchunk : 1 <= chunk) by (unfold chunk; lia).
  rewrite send_filemsg_run by assumption. rewrite bind_emit.
  rewrite new_char_run, bind_ret by lia.
  rewrite (bind_run _ _ _ _ (cread_run ch chunk _ ltac:(lia))).
  rewrite bind_emit.
  rewrite take_received by lia.
  rewrite to_int64_in_range by (unfold INT64_MAX in *; lia).
  reflexivity.
Qed.

Lemma chunk_loop_run (fuel : nat) (off : Z) :
  0 <= off -> L - off <= Z.of_nat fuel * C ->
  chunk_loop w fuel ch C filename outputfile L off
  = (flat_map (chunk_events w ch filename outputfile) (chunks_from fuel C L off), Ret tt).
Proof.
  revert off. induction fuel as [|fuel IH]; intros off Hoff Hfuel.
  - rewrite chunk_loop_done by lia. reflexivity.
  - destruct (Z.lt_ge_cases off L) as [Hlt|Hge].
    + rewrite chunk_loop_step by lia. cbn [chunks_from flat_map].
      destruct (Z.ltb_spec off L) as [_|Hge]; [|lia].
      cbn [flat_map].
      destruct (Z.le_gt_cases (off + C) L) as [Hfull|Hlast].
      * rewrite Z.min_l by lia. rewrite IH by lia. reflexivity.
      * rewrite Z.min_r by lia.
        rewrite chunk_loop_done by lia.
        rewrite chunks_from_done by lia. reflexivity.
    + rewrite chunk_loop_done, chunks_from_done by lia. reflexivity.
Qed.

End Transfer.

(** ** Properties of every event of a run *)

Lemma always_bind {A B : Type} (P : event -> Prop) (m : M A) (k : A -> M B) :
  always P m -> (forall a, always P (k a)) -> always P (bind m k).
Proof.
  intros Hm Hk. unfold always in *. rewrite trace_bind.
  apply Forall_app. split; [exact Hm|].
  destruct (result m); try constructor. apply Hk.
Qed.

Lemma always_silent {A : Type} (P : event -> Prop) (m : M A) : trace m = [] -> always P m.
Proof. intros E. unfold always. rewrite E. constructor. Qed.

Lemma always_emit (P : event -> Prop) (ev : event) : P ev -> always P (emit ev).
Proof. intros HP. unfold always. simpl. constructor; [exact HP|constructor]. Qed.

Lemma always_if {A : Type} (P : event -> Prop) (b : bool) (m m' : M A) :
  always P m -> always P m' -> always P (if b then m else m').
Proof. now destruct b. Qed.

Lemma new_char_silent (n : Z) : trace (new_char n) = [].
Proof. unfold new_char. now destruct (n <? 0). Qed.

Lemma memcpy_silent (dst : buffer) (src : list byte) (n : Z) : trace (memcpy dst src n) = [].
Proof. unfold memcpy. now destruct ((0 <=? n) && (n <=? len src) && (n <=? len dst)). Qed.

Lemma strcpy_silent (dst : buffer) (off : Z) (src : list byte) : trace (strcpy dst off src) = [].
Proof.
  unfold strcpy.
  now destruct ((0 <=? off) && (off + len (until_nul src ++ [NUL]) <=? len dst)).
Qed.

Lemma string_of_buffer_silent (buf : buffer) : trace (string_of_buffer buf) = [].
Proof.
  induction buf as [|[b|] buf IH]; simpl; try reflexivity.
  destruct (Byte.eqb b NUL); [reflexivity|].
  rewrite trace_bind, IH. simpl. now destruct (result (string_of_buffer buf)).
Qed.

Lemma always_cwrite (P : event -> Prop) (ch : channel) (buf : buffer) (n : Z) :
  (forall msg, P (Cwrite ch msg)) -> always P (cwrite ch buf n).
Proof.
  intros HP. unfold cwrite.
  destruct ((0 <=? n) && (n <=? len buf)); [apply always_emit, HP|now apply always_silent].
Qed.

Lemma always_cread (P : event -> Prop) (ch : channel) (buf : buffer) (n : Z) (sent : list byte) :
  P (Cread ch n) -> always P (cread ch buf n sent).
Proof.
  intros HP. unfold cread. apply always_bind; [now apply always_emit|].
  intros _. destruct ((0 <=? n) && (n <=? len buf)); now apply always_silent.
Qed.

Lemma always_cread_value {A : Type} (P : event -> Prop) (ch : channel) (n : Z) (v : A) :
  P (Cread ch n) -> always P (cread_value ch n v).
Proof.
  intros HP. unfold cread_value. apply always_bind; [now apply always_emit|].
  intros _. now apply always_silent.
Qed.

Lemma always_return_ {A : Type} (P : event -> Prop) (status : Z) :
  P (Chan_destroy chan) -> always P (@return_ A status).
Proof.
  intros HP. unfold return_. apply always_bind; [now apply always_emit|].
  intros _. now apply always_silent.
Qed.

Lemma ofs_written_app (path : list byte) (tr tr' : list event) :
  ofs_written path (tr ++ tr') = ofs_written path tr ++ ofs_written path tr'.
Proof.
  induction tr as [|ev tr IH]; simpl; [reflexivity|].
  destruct ev; try exact IH.
  destruct (path_eqb path path0); [|exact IH].
  now rewrite IH, app_assoc.
Qed.

Lemma path_eqb_refl (path : list byte) : path_eqb path path = true.
Proof. unfold path_eqb. destruct (list_eq_dec Byte.byte_eq_dec path path); congruence. Qed.

Lemma tiles_within (C L : Z) (off : Z) (plan : list (Z * Z)) :
  0 < C -> 0 <= off -> tiles C L off plan ->
  Forall (fun r => 0 <= fst r /\ 1 <= snd r /\ fst r + snd r <= L) plan.
Proof.
  intros HC Hoff Htiles. induction Htiles as [|off plan Hlt _ IH]; constructor.
  - simpl. lia.
  - apply IH. lia.
Qed.

Lemma chunks_from_plan (C L : Z) (n : nat) :
  0 < C -> 0 <= L -> L <= Z.of_nat n * C -> chunks_from n C L 0 = chunk_plan C L.
Proof.
  intros HC HL Hn.
  rewrite <- (chunks_from_enough C L HC n (Nat.max n (Z.to_nat L)) 0) by lia.
  unfold chunk_plan. apply chunks_from_enough; [exact HC|nia|lia].
Qed.

Section Session.

Context {common_h : CommonH}.
Variable w : World.
Variable ch : channel.
Variable filename : list byte.

Hypothesis filename_no_nul : ~ In NUL filename.
Hypothesis filename_fits : fits filename.

(** The events of the chunks that were written to the output file. *)
Lemma ofs_written_chunks (outputfile : list byte) (plan : list (Z * Z)) :
  ofs_written outputfile (flat_map (chunk_events w ch filename outputfile) plan)
  = List.concat (map (fun r => received (snd r) (reply_chunk w filename (fst r) (snd r))) plan).
Proof.
  induction plan as [|r plan IH]; [reflexivity|].
  cbn [flat_map map List.concat]. rewrite ofs_written_app, IH.
  simpl. rewrite path_eqb_refl. now rewrite app_nil_r.
Qed.

(** From the length probe to the closing of the output file, when the
    capacity is positive, the length is not negative and the output
    file opens. *)
Lemma request_file_run (C L : Z) (fuel : nat) :
  0 < C <= INT_MAX -> 0 <= L -> L + C <= INT64_MAX ->
  reply_filelen w filename = L ->
  ofs_is_open w (lit "received/" ++ filename) = true ->
  L <= Z.of_nat fuel * C ->
  request_file w fuel ch C filename
  = (probe_events ch filename L
       ++ flat_map (chunk_events w ch filename (lit "received/" ++ filename)) (chunk_plan C L)
       ++ [Ofs_close (lit "received/" ++ filename)],
     Ret tt).
Proof.
  intros HC HL Hmax Hlen Hopen Hfuel. unfold request_file.
  rewrite send_filemsg_run by assumption. run_emit.
  run (cread_value_run ch sizeof_int64 (reply_filelen w filename)).
  rewrite Hlen, Hopen. do 2 run_emit. cbn [negb]. run_ret.
  run (chunk_loop_run w ch filename (lit "received/" ++ filename) C L
         HC Hmax filename_no_nul filename_fits fuel 0 ltac:(lia) ltac:(lia)).
  rewrite chunks_from_plan by lia.
  reflexivity.
Qed.

End Session.

(** ** The file transfer: chunks, requests, termination *)

Lemma stored_concat (ls : list (list byte)) :
  List.concat (map stored ls) = stored (List.concat ls).
Proof. unfold stored. symmetry. apply concat_map. Qed.

Lemma received_of_server (w : World) (filename file : list byte) (plan : list (Z * Z)) :
  serves w filename file ->
  Forall (fun r => 0 <= fst r /\ 1 <= snd r /\ fst r + snd r <= len file) plan ->
  map (fun r => received (snd r) (reply_chunk w filename (fst r) (snd r))) plan
  = map stored (map (fun r => take (snd r) (drop (fst r) file)) plan).
Proof.
  intros [_ Hchunk] Hplan. rewrite map_map. apply map_ext_in.
  intros r Hr. rewrite Forall_forall in Hplan. specialize (Hplan r Hr).
  rewrite Hchunk. apply received_slice; lia.
Qed.

(** C1. A file transfer of a file of length L > 0 with a capacity C > 0
    (L + C within the 64-bit offsets) issues, after the length probe,
    the chunk requests of the plan of the specification: from offset 0,
    each chunk is min(C, L - offset), the next offset is the offset plus
    the chunk, and the plan ends at offset L; against a server that
    holds the file, what is written to the output file is the file.
    Capacity 1024 and length 2500 give (0,1024), (1024,1024),
    (2048,452). *)
Theorem chunk_requests_tile_the_file {common_h : CommonH}
    (w : World) (ch : channel) (filename file : list byte) (C : Z) (fuel : nat) :
  0 < C <= INT_MAX -> 0 < len file -> len file + C <= INT64_MAX ->
  ~ In NUL filename -> fits filename ->
  serves w filename file ->
  ofs_is_open w (lit "received/" ++ filename) = true ->
  len file <= Z.of_nat fuel * C ->
  tiles C (len file) 0 (chunk_plan C (len file))
  /\ request_file w fuel ch C filename
     = (probe_events ch filename (len file)
          ++ flat_map (chunk_events w ch filename (lit "received/" ++ filename))
               (chunk_plan C (len file))
          ++ [Ofs_close (lit "received/" ++ filename)],
        Ret tt)
  /\ ofs_written (lit "received/" ++ filename) (trace (request_file w fuel ch C filename))
     = stored file
  /\ chunk_plan 1024 2500 = [(0, 1024); (1024, 1024); (2048, 452)].
Proof.
  intros HC HL Hmax Hnul Hfits Hserves Hopen Hfuel.
  assert (Htiles : tiles C (len file) 0 (chunk_plan C (len file)))
    by (apply chunk_plan_tiles; lia).
  assert (Hrun := request_file_run w ch filename Hnul Hfits C (len file) fuel
                    HC ltac:(lia) Hmax (proj1 Hserves) Hopen Hfuel).
  split; [exact Htiles|]. split; [exact Hrun|]. split; [|reflexivity].
  rewrite Hrun. cbn [trace fst].
  rewrite !ofs_written_app, ofs_written_chunks.
  cbn [probe_events ofs_written app]. rewrite app_nil_r.
  rewrite (received_of_server w filename file _ Hserves)
    by (apply (tiles_within C (len file) 0); [lia|lia|exact Htiles]).
  rewrite stored_concat.
  rewrite (tiles_slices C (len file) file 0) by (try exact Htiles; lia || reflexivity).
  reflexivity.
Qed.

Ltac by_computation :=
  vm_compute; repeat split; try reflexivity; try discriminate; intuition discriminate.

Lemma chunk_requests_tile_the_file_witness :
  ofs_written (lit "received/f.bin")
    (trace (request_file (common_h := x86_64) (file_server sample_file) 3 chan 1024 (lit "f.bin")))
  = stored sample_file.
Proof.
  refine (proj1 (proj2 (proj2
    (chunk_requests_tile_the_file (common_h := x86_64)
       (file_server sample_file) chan (lit "f.bin") sample_file 1024 3
       _ _ _ _ _ _ _ _)))).
  - by_computation.
  - by_computation.
  - by_computation.
  - by_computation.
  - by_computation.
  - split; [reflexivity|]. intros off n. reflexivity.
  - reflexivity.
  - by_computation.
Defined.

Section FileRequests.

Context {common_h : CommonH}.
Variable w : World.
Variable filename : list byte.

Hypothesis filename_no_nul : ~ In NUL filename.
Hypothesis filename_fits : fits filename.

Lemma file_requests_only_send (ch : channel) (fm : filemsg) :
  always (file_requests_only filename) (send_filemsg ch fm filename).
Proof.
  rewrite send_filemsg_run by assumption. apply always_emit.
  intros ch' msg E. injection E as _ <-. exists fm. reflexivity.
Qed.

Lemma file_requests_only_chunk_loop (fuel : nat) (ch : channel) (C : Z)
    (outputfile : list byte) (filelen : Z) :
  forall off, always (file_requests_only filename) (chunk_loop w fuel ch C filename outputfile filelen off).
Proof.
  induction fuel as [|fuel IH]; intros off; cbn [chunk_loop];
    destruct (off <? filelen); try (now apply always_silent).
  apply always_bind; [apply file_requests_only_send|intros _].
  apply always_bind; [apply always_silent, new_char_silent|intros buf4].
  apply always_bind; [apply always_cread; intros ? ? E; discriminate E|intros buf4'].
  apply always_bind; [apply always_emit; intros ? ? E; discriminate E|intros _].
  apply IH.
Qed.

Lemma file_requests_only_request_file (fuel : nat) (ch : channel) (C : Z) :
  always (file_requests_only filename) (request_file w fuel ch C filename).
Proof.
  unfold request_file.
  apply always_bind; [apply file_requests_only_send|intros _].
  apply always_bind; [apply always_cread_value; intros ? ? E; discriminate E|intros filelen].
  apply always_bind; [apply always_emit; intros ? ? E; discriminate E|intros _].
  apply always_bind; [apply always_emit; intros ? ? E; discriminate E|intros _].
  apply always_bind.
  - apply always_if; [|now apply always_silent].
    apply always_bind; [apply always_emit; intros ? ? E; discriminate E|intros _].
    apply always_return_. intros ? ? E; discriminate E.
  - intros _. apply always_bind; [apply file_requests_only_chunk_loop|intros _].
    apply always_emit; intros ? ? E; discriminate E.
Qed.

End FileRequests.

(** C3. A FILE request, the length probe as well as a chunk request, is
    written as the fixed struct followed at once by the file name and
    its terminating NUL: sizeof(filemsg) + the length of the name + 1
    bytes; no other message is written during a file transfer. *)
Theorem file_request_is_struct_then_name {common_h : CommonH}
    (w : World) (fuel : nat) (ch : channel) (C : Z) (filename : list byte) :
  ~ In NUL filename -> fits filename ->
  (forall fm,
      send_filemsg ch fm filename
      = emit (Cwrite ch (stored (repr_filemsg fm ++ c_str filename)))
      /\ len (stored (repr_filemsg fm ++ c_str filename)) = sizeof_filemsg + len filename + 1
      /\ take sizeof_filemsg (repr_filemsg fm ++ c_str filename) = repr_filemsg fm
      /\ drop sizeof_filemsg (repr_filemsg fm ++ c_str filename) = filename ++ [NUL])
  /\ always (fun ev => forall ch' msg, ev = Cwrite ch' msg ->
               exists fm, msg = stored (repr_filemsg fm ++ c_str filename))
       (request_file w fuel ch C filename).
Proof.
  intros Hnul Hfits. split.
  - intros fm. split; [now apply send_filemsg_run|].
    split; [apply len_file_request|].
    rewrite <- (repr_filemsg_size fm).
    split; [apply take_len_app|apply drop_len_app].
  - now apply file_requests_only_request_file.
Qed.

Lemma file_request_is_struct_then_name_witness :
  send_filemsg (common_h := x86_64) chan (Filemsg 1024 452) (lit "f.bin")
  = emit (Cwrite chan (stored (x86_64_filemsg (Filemsg 1024 452) ++ c_str (lit "f.bin")))).
Proof.
  refine (proj1 (proj1
    (file_request_is_struct_then_name (common_h := x86_64)
       (file_server sample_file) 3 chan 1024 (lit "f.bin") _ _) (Filemsg 1024 452))).
  - by_computation.
  - by_computation.
Defined.

(** C4. In a file transfer with a positive capacity and a total length
    L >= 0 (L + C within the 64-bit offsets) the length probe is
    FILE(0,0,name), every chunk request of the loop asks for at least one
    byte and is issued while the offset, the number of bytes retrieved so
    far, is below L, and the loop ends, with the chunks adding up to L. *)
Theorem chunk_requests_are_never_empty {common_h : CommonH}
    (w : World) (ch : channel) (filename : list byte) (C L : Z) (fuel : nat) :
  0 < C <= INT_MAX -> 0 <= L -> L + C <= INT64_MAX ->
  ~ In NUL filename -> fits filename ->
  reply_filelen w filename = L ->
  ofs_is_open w (lit "received/" ++ filename) = true ->
  L <= Z.of_nat fuel * C ->
  request_file w fuel ch C filename
  = ([ Cwrite ch (stored (repr_filemsg (Filemsg 0 0) ++ c_str filename));
       Cread ch sizeof_int64;
       Cout (Say_file_length filename L);
       Ofs_open (lit "received/" ++ filename) true ]
       ++ flat_map (chunk_events w ch filename (lit "received/" ++ filename)) (chunk_plan C L)
       ++ [Ofs_close (lit "received/" ++ filename)],
     Ret tt)
  /\ Forall (fun r => 1 <= snd r /\ fst r < L) (chunk_plan C L)
  /\ tiles C L 0 (chunk_plan C L)
  /\ total_length (chunk_plan C L) = L.
Proof.
  intros HC HL Hmax Hnul Hfits Hlen Hopen Hfuel.
  assert (Htiles : tiles C L 0 (chunk_plan C L)) by (apply chunk_plan_tiles; lia).
  split; [now apply request_file_run|].
  split; [|split; [exact Htiles|]].
  - pose proof (tiles_chunks C L 0 _ Htiles) as Hlt.
    pose proof (tiles_positive C L 0 _ ltac:(lia) Htiles) as Hpos.
    rewrite Forall_forall in *. intros r Hr.
    specialize (Hlt r Hr). specialize (Hpos r Hr). lia.
  - pose proof (tiles_total C L 0 _ Htiles). lia.
Qed.

Lemma chunk_requests_are_never_empty_witness :
  Forall (fun r => 1 <= snd r /\ fst r < 2500) (chunk_plan 1024 2500).
Proof.
  refine (proj1 (proj2
    (chunk_requests_are_never_empty (common_h := x86_64)
       (file_server sample_file) chan (lit "f.bin") 1024 2500 3
       _ _ _ _ _ _ _ _))).
  - by_computation.
  - by_computation.
  - by_computation.
  - by_computation.
  - by_computation.
  - reflexivity.
  - reflexivity.
  - by_computation.
Defined.

(** ** One request in flight *)

Lemma in_flight_app (pending : list channel) (tr tr' : list event) :
  in_flight pending (tr ++ tr')
  = match in_flight pending tr with
    | Some pending' => in_flight pending' tr'
    | None => None
    end.
Proof.
  revert pending. induction tr as [|ev tr IH]; intros pending; [reflexivity|].
  destruct ev; simpl; try apply IH.
  - destruct (existsb (channel_eqb ch) pending); [reflexivity|apply IH].
  - destruct (existsb (channel_eqb ch) pending); [apply IH|reflexivity].
Qed.

Lemma channel_eqb_refl (ch : channel) : channel_eqb ch ch = true.
Proof.
  destruct ch as [|n]; simpl; [reflexivity|].
  destruct (list_eq_dec Byte.byte_eq_dec n n); congruence.
Qed.

Lemma filter_absent (ch : channel) (rest : list channel) :
  existsb (channel_eqb ch) rest = false ->
  filter (fun ch' => negb (channel_eqb ch ch')) rest = rest.
Proof.
  induction rest as [|ch' rest IH]; simpl; [reflexivity|].
  intros E. apply orb_false_iff in E as [E1 E2].
  rewrite E1. simpl. now rewrite IH.
Qed.

Lemma sync_bind {A B : Type} (ch : channel) (b b1 b2 : bool) (m : M A) (k : A -> M B) :
  sync ch b m b1 -> (forall a, sync ch b1 (k a) b2) -> sync ch b (bind m k) b2.
Proof.
  intros Hm Hk rest Hrest. specialize (Hm rest Hrest).
  rewrite trace_bind, result_bind, in_flight_app.
  destruct (result m) as [a|s| | | ]; try (now rewrite app_nil_r in * ).
  - rewrite Hm. apply (Hk a rest Hrest).
  - destruct (in_flight (pending_with ch b rest) (trace m)); [|congruence].
    simpl. discriminate.
  - destruct (in_flight (pending_with ch b rest) (trace m)); [|congruence].
    simpl. discriminate.
  - destruct (in_flight (pending_with ch b rest) (trace m)); [|congruence].
    simpl. discriminate.
  - destruct (in_flight (pending_with ch b rest) (trace m)); [|congruence].
    simpl. discriminate.
Qed.

Lemma sync_silent {A : Type} (ch : channel) (b b' : bool) (m : M A) :
  trace m = [] -> (forall a, result m = Ret a -> b' = b) -> sync ch b m b'.
Proof.
  intros E Hb rest _. rewrite E. simpl.
  destruct (result m) as [a| | | | ] eqn:R; try discriminate.
  now rewrite (Hb a eq_refl).
Qed.

Lemma sync_ret {A : Type} (ch : channel) (b : bool) (a : A) : sync ch b (ret a) b.
Proof. now apply sync_silent. Qed.

Lemma sync_stop {A : Type} (ch : channel) (b b' : bool) (o : outcome A) :
  (forall a, o <> Ret a) -> sync ch b (stop o) b'.
Proof.
  intros Ho. apply sync_silent; [reflexivity|].
  intros a E. simpl in E. now destruct (Ho a).
Qed.

Lemma sync_emit (ch : channel) (b : bool) (ev : event) :
  off_channel ev -> sync ch b (emit ev) b.
Proof. intros Hev rest _. destruct ev; simpl in *; tauto. Qed.

Lemma sync_if {A : Type} (ch : channel) (b b' : bool) (c : bool) (m m' : M A) :
  sync ch b m b' -> sync ch b m' b' -> sync ch b (if c then m else m') b'.
Proof. now destruct c. Qed.

Lemma sync_new_char (ch : channel) (b : bool) (n : Z) : sync ch b (new_char n) b.
Proof. apply sync_silent; [apply new_char_silent|reflexivity]. Qed.

Lemma sync_memcpy (ch : channel) (b : bool) (dst : buffer) (src : list byte) (n : Z) :
  sync ch b (memcpy dst src n) b.
Proof. apply sync_silent; [apply memcpy_silent|reflexivity]. Qed.

Lemma sync_strcpy (ch : channel) (b : bool) (dst : buffer) (off : Z) (src : list byte) :
  sync ch b (strcpy dst off src) b.
Proof. apply sync_silent; [apply strcpy_silent|reflexivity]. Qed.

Lemma sync_string_of_buffer (ch : channel) (b : bool) (buf : buffer) :
  sync ch b (string_of_buffer buf) b.
Proof. apply sync_silent; [apply string_of_buffer_silent|reflexivity]. Qed.

Lemma sync_cwrite (ch : channel) (buf : buffer) (n : Z) :
  sync ch false (cwrite ch buf n) true.
Proof.
  unfold cwrite. destruct ((0 <=? n) && (n <=? len buf)).
  - intros rest Hrest. simpl. now rewrite Hrest.
  - apply sync_stop. discriminate.
Qed.

Lemma sync_read_event (ch : channel) (n : Z) : sync ch true (emit (Cread ch n)) false.
Proof.
  intros rest Hrest. simpl. rewrite channel_eqb_refl. simpl.
  now rewrite filter_absent.
Qed.

Lemma sync_cread (ch : channel) (buf : buffer) (n : Z) (sent : list byte) :
  sync ch true (cread ch buf n sent) false.
Proof.
  unfold cread. apply sync_bind with (b1 := false); [apply sync_read_event|intros _].
  destruct ((0 <=? n) && (n <=? len buf)); [apply sync_ret|apply sync_stop; discriminate].
Qed.

Lemma sync_cread_value {A : Type} (ch : channel) (n : Z) (v : A) :
  sync ch true (cread_value ch n v) false.
Proof.
  unfold cread_value. apply sync_bind with (b1 := false); [apply sync_read_event|intros _].
  apply sync_ret.
Qed.

Lemma sync_return_ {A : Type} (ch : channel) (b b' : bool) (status : Z) :
  sync ch b (@return_ A status) b'.
Proof.
  unfold return_. apply sync_bind with (b1 := b); [now apply sync_emit|intros _].
  apply sync_stop. discriminate.
Qed.

Section Discipline.

Context {common_h : CommonH}.
Variable w : World.

Lemma sync_send_filemsg (ch : channel) (fm : filemsg) (filename : list byte) :
  sync ch false (send_filemsg ch fm filename) true.
Proof.
  unfold send_filemsg.
  apply sync_bind with (b1 := false); [apply sync_new_char|intros buf].
  apply sync_bind with (b1 := false); [apply sync_memcpy|intros buf'].
  apply sync_bind with (b1 := false); [apply sync_strcpy|intros buf''].
  apply sync_cwrite.
Qed.

Lemma sync_ask_datamsg (ch : channel) (buf : buffer) (x : datamsg) :
  sync ch false (ask_datamsg w ch buf x) false.
Proof.
  unfold ask_datamsg.
  apply sync_bind with (b1 := false); [apply sync_memcpy|intros buf'].
  apply sync_bind with (b1 := true); [apply sync_cwrite|intros _].
  apply sync_cread_value.
Qed.

Lemma sync_new_channel_request (C : Z) : sync chan false (new_channel_request w C) false.
Proof.
  unfold new_channel_request.
  apply sync_bind with (b1 := false); [apply sync_new_char|intros buf].
  apply sync_bind with (b1 := false); [apply sync_memcpy|intros buf'].
  apply sync_bind with (b1 := true); [apply sync_cwrite|intros _].
  apply sync_bind with (b1 := false); [apply sync_cread|intros buf2].
  apply sync_bind with (b1 := false); [apply sync_string_of_buffer|intros new_channel_name].
  apply sync_bind with (b1 := false); [now apply sync_emit|intros _].
  apply sync_ret.
Qed.

Lemma sync_request_data_point (ch : channel) (C p : Z) (t : float) (e : Z) :
  sync ch false (request_data_point w ch C p t e) false.
Proof.
  unfold request_data_point.
  apply sync_bind with (b1 := false); [apply sync_new_char|intros buf].
  apply sync_bind with (b1 := false); [apply sync_ask_datamsg|intros reply].
  now apply sync_emit.
Qed.

Lemma sync_first_1000_loop (fuel : nat) (ch : channel) (C p : Z) (outfile : list byte) :
  forall i, sync ch false (first_1000_loop w fuel ch C p outfile i) false.
Proof.
  induction fuel as [|fuel IH]; intros i; cbn [first_1000_loop];
    destruct (i <? 1000)%float; try apply sync_ret.
  - apply sync_stop. discriminate.
  - apply sync_bind with (b1 := false); [apply sync_new_char|intros buf_ecg1].
    apply sync_bind with (b1 := false); [apply sync_new_char|intros buf_ecg2].
    apply sync_bind with (b1 := false); [apply sync_ask_datamsg|intros val1].
    apply sync_bind with (b1 := false); [apply sync_ask_datamsg|intros val2].
    apply sync_bind with (b1 := false); [now apply sync_emit|intros _].
    apply IH.
Qed.

Lemma sync_could_not_open (ch : channel) (b : bool) (is_open : bool) (path : list byte) :
  sync ch b
    (if negb is_open
     then emit (Cout (Say_could_not_open path)) ;; return_ 1
     else ret tt) b.
Proof.
  apply sync_if; [|apply sync_ret].
  apply sync_bind with (b1 := b); [now apply sync_emit|intros _].
  apply sync_return_.
Qed.

Lemma sync_request_1000_points (fuel : nat) (ch : channel) (C p : Z) :
  sync ch false (request_1000_points w fuel ch C p) false.
Proof.
  unfold request_1000_points.
  apply sync_bind with (b1 := false); [now apply sync_emit|intros _].
  apply sync_bind with (b1 := false); [apply sync_could_not_open|intros _].
  apply sync_bind with (b1 := false); [apply sync_first_1000_loop|intros _].
  now apply sync_emit.
Qed.

Lemma sync_chunk_loop (fuel : nat) (ch : channel) (C : Z)
    (filename outputfile : list byte) (filelen : Z) :
  forall off, sync ch false (chunk_loop w fuel ch C filename outputfile filelen off) false.
Proof.
  induction fuel as [|fuel IH]; intros off; cbn [chunk_loop];
    destruct (off <? filelen); try apply sync_ret.
  - apply sync_stop. discriminate.
  - apply sync_bind with (b1 := true); [apply sync_send_filemsg|intros _].
    apply sync_bind with (b1 := true); [apply sync_new_char|intros buf4].
    apply sync_bind with (b1 := false); [apply sync_cread|intros buf4'].
    apply sync_bind with (b1 := false); [now apply sync_emit|intros _].
    apply IH.
Qed.

Lemma sync_request_file (fuel : nat) (ch : channel) (C : Z) (filename : list byte) :
  sync ch false (request_file w fuel ch C filename) false.
Proof.
  unfold request_file.
  apply sync_bind with (b1 := true); [apply sync_send_filemsg|intros _].
  apply sync_bind with (b1 := false); [apply sync_cread_value|intros filelen].
  apply sync_bind with (b1 := false); [now apply sync_emit|intros _].
  apply sync_bind with (b1 := false); [now apply sync_emit|intros _].
  apply sync_bind with (b1 := false); [apply sync_could_not_open|intros _].
  apply sync_bind with (b1 := false); [apply sync_chunk_loop|intros _].
  now apply sync_emit.
Qed.

Lemma sync_closing_the_channel (ch : channel) (c : bool) :
  sync ch false (closing_the_channel ch c) true.
Proof.
  unfold closing_the_channel.
  apply sync_bind with (b1 := false); [now apply sync_emit|intros _].
  apply sync_bind with (b1 := true); [apply sync_cwrite|intros _].
  apply sync_if; [now apply sync_emit|apply sync_ret].
Qed.

(** What [main] does once the active channel is chosen. *)
Lemma sync_requests (fuel : nat) (o : Opts.locals) (ch : channel) :
  sync ch false
    ((if (Opts.p o >=? 0) && (0 <=? Opts.t o)%float
      then request_data_point w ch (Opts.buffercapacity o) (Opts.p o) (Opts.t o) (Opts.e o)
      else if Opts.p o >=? 0
      then request_1000_points w fuel ch (Opts.buffercapacity o) (Opts.p o)
      else ret tt) ;;
     (if len (Opts.filename o) >? 0
      then request_file w fuel ch (Opts.buffercapacity o) (Opts.filename o)
      else ret tt) ;;
     closing_the_channel ch (Opts.c o) ;;
     return_ (A := unit) 0) true.
Proof.
  apply sync_bind with (b1 := false).
  - apply sync_if; [apply sync_request_data_point|].
    apply sync_if; [apply sync_request_1000_points|apply sync_ret].
  - intros _. apply sync_bind with (b1 := false).
    + apply sync_if; [apply sync_request_file|apply sync_ret].
    + intros _. apply sync_bind with (b1 := true); [apply sync_closing_the_channel|intros _].
      apply sync_return_.
Qed.

Lemma sync_from_nothing {A : Type} (ch : channel) (b : bool) (m : M A) :
  sync ch false m b -> in_flight [] (trace m) <> None.
Proof.
  intros Hm. specialize (Hm [] eq_refl). simpl in Hm.
  destruct (result m); congruence.
Qed.

Lemma in_flight_bind_from_nothing {A B : Type} (ch : channel) (m : M A) (k : A -> M B) :
  sync ch false m false ->
  (forall a, in_flight [] (trace (k a)) <> None) ->
  in_flight [] (trace (bind m k)) <> None.
Proof.
  intros Hm Hk. specialize (Hm [] eq_refl). simpl in Hm.
  rewrite trace_bind, in_flight_app.
  destruct (result m) as [a| | | | ].
  - rewrite Hm. apply Hk.
  - destruct (in_flight [] (trace m)); simpl; congruence.
  - destruct (in_flight [] (trace m)); simpl; congruence.
  - destruct (in_flight [] (trace m)); simpl; congruence.
  - destruct (in_flight [] (trace m)); simpl; congruence.
Qed.

End Discipline.

(** In every run of the client, whatever the options, the replies and
    the fuel, each channel sees writes and reads alternate, a write
    first. *)
Lemma one_request_in_flight {common_h : CommonH}
    (w : World) (fuel : nat) (argv : list option_arg) :
  one_in_flight (trace (main w fuel argv)) = true
  /\ one_in_flight [Cwrite chan []; Cwrite chan []] = false
  /\ one_in_flight [Cwrite chan []; Cread chan 8; Cread chan 8] = false.
Proof.
  split; [|split; reflexivity].
  unfold one_in_flight.
  assert (H : in_flight [] (trace (main w fuel argv)) <> None).
  { unfold main.
    apply (in_flight_bind_from_nothing chan); [now apply sync_emit|intros _].
    apply (in_flight_bind_from_nothing chan); [now apply sync_emit|intros _].
    apply (in_flight_bind_from_nothing chan).
    - apply sync_if; [apply sync_new_channel_request|apply sync_ret].
    - intros active_chan.
      apply (sync_from_nothing active_chan true), sync_requests. }
  destruct (in_flight [] (trace (main w fuel argv))); congruence.
Qed.

(** ** The request for a new channel *)

Lemma received_30 (sent : list byte) :
  received 30 sent
  = stored (take 30 sent) ++ repeat None (Z.to_nat (30 - len (take 30 sent))).
Proof. reflexivity. Qed.

Section NewChannel.

Context {common_h : CommonH}.
Variable w : World.

Lemma new_channel_request_run (C : Z) :
  sizeof_MESSAGE_TYPE <= C ->
  In NUL (take 30 (reply_newchannel w)) ->
  new_channel_request w C
  = ([ Cwrite chan (tag_request NEWCHANNEL_MSG);
       Cread chan 30;
       Chan_open (new_chan (until_nul (take 30 (reply_newchannel w)))) ],
     Ret (new_chan (until_nul (take 30 (reply_newchannel w))))).
Proof.
  intros HC Hnul. pose proof sizeof_MESSAGE_TYPE_nonneg as Hsz.
  unfold new_channel_request.
  rewrite new_char_run, bind_ret by lia.
  rewrite memcpy_run, bind_ret;
    [| apply repr_MESSAGE_TYPE_size | rewrite len_repeat; lia].
  rewrite cwrite_front by (symmetry; apply repr_MESSAGE_TYPE_size).
  run_emit.
  change (repeat (@None byte) 30) with (repeat (@None byte) (Z.to_nat 30)).
  run (cread_run chan 30 (reply_newchannel w) ltac:(lia)).
  rewrite received_30, string_of_buffer_run, bind_ret by exact Hnul.
  reflexivity.
Qed.

Lemma new_channel_reads_30 (C : Z) :
  always (fun ev => forall ch n, ev = Cread ch n -> ch = chan /\ n = 30)
    (new_channel_request w C).
Proof.
  unfold new_channel_request.
  apply always_bind; [apply always_silent, new_char_silent|intros buf].
  apply always_bind; [apply always_silent, memcpy_silent|intros buf'].
  apply always_bind; [apply always_cwrite; intros ? ? ? E; discriminate E|intros _].
  apply always_bind.
  - apply always_cread. intros ch n E. injection E as <- <-. now split.
  - intros buf2.
    apply always_bind; [apply always_silent, string_of_buffer_silent|intros new_channel_name].
    apply always_bind; [apply always_emit; intros ? ? E; discriminate E|intros _].
    now apply always_silent.
Qed.

End NewChannel.

(** C10. The request for a new channel is written as the bare type tag,
    sizeof(MESSAGE_TYPE) bytes; its reply is read as a block of 30 bytes
    whatever the capacity is, and the name of the new channel is what
    precedes the first NUL of that block. *)
Theorem new_channel_reply_is_30_bytes {common_h : CommonH} (w : World) (C : Z) :
  sizeof_MESSAGE_TYPE <= C ->
  In NUL (take 30 (reply_newchannel w)) ->
  new_channel_request w C
  = ([ Cwrite chan (stored (repr_MESSAGE_TYPE NEWCHANNEL_MSG));
       Cread chan 30;
       Chan_open (new_chan (until_nul (take 30 (reply_newchannel w)))) ],
     Ret (new_chan (until_nul (take 30 (reply_newchannel w)))))
  /\ len (stored (repr_MESSAGE_TYPE NEWCHANNEL_MSG)) = sizeof_MESSAGE_TYPE
  /\ forall C', always (fun ev => forall ch n, ev = Cread ch n -> ch = chan /\ n = 30)
                  (new_channel_request w C').
Proof.
  intros HC Hnul. split; [now apply new_channel_request_run|].
  split; [|intros C'; apply new_channel_reads_30].
  rewrite len_stored. apply repr_MESSAGE_TYPE_size.
Qed.

Lemma new_channel_reply_is_30_bytes_witness :
  new_channel_request (common_h := x86_64) (file_server sample_file) 256
  = ([ Cwrite chan (stored (x86_64_MESSAGE_TYPE NEWCHANNEL_MSG));
       Cread chan 30;
       Chan_open (new_chan (lit "data1_")) ],
     Ret (new_chan (lit "data1_"))).
Proof.
  refine (proj1 (new_channel_reply_is_30_bytes (common_h := x86_64)
                   (file_server sample_file) 256 _ _)).
  - by_computation.
  - vm_compute. tauto.
Defined.

(** ** The data points *)

Ltac walk :=
  repeat match goal with
    | |- always _ (bind _ _) => apply always_bind; [|intros ?]
    | |- always _ (if _ then _ else _) => apply always_if
    | |- always _ (new_char _) => apply always_silent, new_char_silent
    | |- always _ (memcpy _ _ _) => apply always_silent, memcpy_silent
    | |- always _ (strcpy _ _ _) => apply always_silent, strcpy_silent
    | |- always _ (string_of_buffer _) => apply always_silent, string_of_buffer_silent
    | |- always _ (ret _) => apply always_silent; reflexivity
    | |- always _ (stop _) => apply always_silent; reflexivity
    | |- always _ (cread _ _ _ _) => apply always_cread
    | |- always _ (cread_value _ _ _) => apply always_cread_value
    | |- always _ (return_ _) => apply always_return_
    | |- always _ (cwrite _ _ _) => apply always_cwrite
    | |- always _ (emit _) => apply always_emit
    end.

Section DataPoints.

Context {common_h : CommonH}.
Variable w : World.

Lemma always_ask_datamsg (P : event -> Prop) (ch : channel) (buf : buffer) (x : datamsg) :
  P (Cwrite ch (data_request x)) -> P (Cread ch sizeof_double) ->
  always P (ask_datamsg w ch buf x).
Proof.
  intros Hwrite Hread. unfold ask_datamsg, memcpy.
  destruct ((0 <=? sizeof_datamsg) && (sizeof_datamsg <=? len (repr_datamsg x))
            && (sizeof_datamsg <=? len buf)).
  - rewrite bind_ret. rewrite <- (repr_datamsg_size x) at 1. rewrite take_len.
    rewrite cwrite_front by (symmetry; apply repr_datamsg_size).
    walk; assumption.
  - now apply always_silent.
Qed.

Lemma data_point_event_write (ch : channel) (x : datamsg) :
  data_point_event (Cwrite ch (data_request x)).
Proof.
  exists x. split; [reflexivity|].
  unfold data_request. rewrite len_stored. apply repr_datamsg_size.
Qed.

Lemma data_points_request_data_point (ch : channel) (C p : Z) (t : float) (e : Z) :
  always data_point_event (request_data_point w ch C p t e).
Proof.
  unfold request_data_point. walk; try exact I.
  apply always_ask_datamsg; [apply data_point_event_write|reflexivity].
Qed.

Lemma data_points_first_1000_loop (fuel : nat) (ch : channel) (C p : Z) (outfile : list byte) :
  forall i, always data_point_event (first_1000_loop w fuel ch C p outfile i).
Proof.
  induction fuel as [|fuel IH]; intros i; cbn [first_1000_loop];
    destruct (i <? 1000)%float; try (now apply always_silent).
  apply always_bind; [apply always_silent, new_char_silent|intros buf_ecg1].
  apply always_bind; [apply always_silent, new_char_silent|intros buf_ecg2].
  apply always_bind;
    [apply always_ask_datamsg; [apply data_point_event_write|reflexivity]|intros val1].
  apply always_bind;
    [apply always_ask_datamsg; [apply data_point_event_write|reflexivity]|intros val2].
  apply always_bind; [now apply always_emit|intros _].
  apply IH.
Qed.

Lemma data_points_request_1000_points (fuel : nat) (ch : channel) (C p : Z) :
  always data_point_event (request_1000_points w fuel ch C p).
Proof.
  unfold request_1000_points.
  apply always_bind; [now apply always_emit|intros _].
  apply always_bind; [walk; exact I|intros _].
  apply always_bind; [apply data_points_first_1000_loop|intros _].
  now apply always_emit.
Qed.

Lemma request_data_point_run (ch : channel) (C p : Z) (t : float) (e : Z) :
  sizeof_datamsg <= C ->
  request_data_point w ch C p t e
  = ([ Cwrite ch (stored (repr_datamsg (Datamsg p t e)));
       Cread ch 8;
       Cout (Say_value p t e (reply_datapoint w (Datamsg p t e))) ],
     Ret tt).
Proof.
  intros HC. pose proof sizeof_datamsg_nonneg. unfold request_data_point.
  rewrite new_char_run, bind_ret by lia.
  run (ask_datamsg_run w ch C (Datamsg p t e) HC).
  reflexivity.
Qed.

Lemma first_1000_loop_step (fuel : nat) (ch : channel) (C p : Z) (outfile : list byte)
    (i : float) :
  sizeof_datamsg <= C -> (i <? 1000)%float = true ->
  first_1000_loop w (S fuel) ch C p outfile i
  = ([ Cwrite ch (stored (repr_datamsg (Datamsg p (i * 0.004)%float 1)));
       Cread ch 8;
       Cwrite ch (stored (repr_datamsg (Datamsg p (i * 0.004)%float 2)));
       Cread ch 8;
       Ofs_row outfile (i * 0.004)%float
         (reply_datapoint w (Datamsg p (i * 0.004)%float 1))
         (reply_datapoint w (Datamsg p (i * 0.004)%float 2)) ]
       ++ trace (first_1000_loop w fuel ch C p outfile (i + 1)%float),
     result (first_1000_loop w fuel ch C p outfile (i + 1)%float)).
Proof.
  intros HC Hi. pose proof sizeof_datamsg_nonneg. cbn [first_1000_loop]. rewrite Hi.
  rewrite new_char_run, !bind_ret by lia.
  run (ask_datamsg_run w ch C (Datamsg p (i * 0.004)%float 1) HC).
  run (ask_datamsg_run w ch C (Datamsg p (i * 0.004)%float 2) HC).
  run_emit. reflexivity.
Qed.

End DataPoints.

(** C8. A request for a data point, the single one as well as each of the
    first 1000 points, is written as the bytes of the [datamsg] struct,
    sizeof(datamsg) of them, and its reply is read as one [double] of 8
    bytes. *)
Theorem data_point_request_and_reply {common_h : CommonH}
    (w : World) (ch : channel) (C p : Z) (t : float) (e : Z) :
  sizeof_datamsg <= C ->
  request_data_point w ch C p t e
  = ([ Cwrite ch (stored (repr_datamsg (Datamsg p t e)));
       Cread ch 8;
       Cout (Say_value p t e (reply_datapoint w (Datamsg p t e))) ],
     Ret tt)
  /\ len (stored (repr_datamsg (Datamsg p t e))) = sizeof_datamsg
  /\ sizeof_double = 8
  /\ (forall fuel outfile i, (i <? 1000)%float = true ->
        first_1000_loop w (S fuel) ch C p outfile i
        = ([ Cwrite ch (stored (repr_datamsg (Datamsg p (i * 0.004)%float 1)));
             Cread ch 8;
             Cwrite ch (stored (repr_datamsg (Datamsg p (i * 0.004)%float 2)));
             Cread ch 8;
             Ofs_row outfile (i * 0.004)%float
               (reply_datapoint w (Datamsg p (i * 0.004)%float 1))
               (reply_datapoint w (Datamsg p (i * 0.004)%float 2)) ]
             ++ trace (first_1000_loop w fuel ch C p outfile (i + 1)%float),
           result (first_1000_loop w fuel ch C p outfile (i + 1)%float)))
  /\ (forall C' fuel,
        always data_point_event (request_data_point w ch C' p t e)
        /\ always data_point_event (request_1000_points w fuel ch C' p)).
Proof.
  intros HC.
  split; [now apply request_data_point_run|].
  split; [rewrite len_stored; apply repr_datamsg_size|].
  split; [reflexivity|].
  split; [intros fuel outfile i Hi; now apply first_1000_loop_step|].
  intros C' fuel. split.
  - apply data_points_request_data_point.
  - apply data_points_request_1000_points.
Qed.

Lemma data_point_request_and_reply_witness :
  request_data_point (common_h := x86_64) (file_server sample_file) chan 1024 3 0.004%float 2
  = ([ Cwrite chan (stored (x86_64_datamsg (Datamsg 3 0.004%float 2)));
       Cread chan 8;
       Cout (Say_value 3 0.004%float 2 0%float) ],
     Ret tt).
Proof.
  refine (proj1 (data_point_request_and_reply (common_h := x86_64)
                   (file_server sample_file) chan 1024 3 0.004%float 2 _)).
  by_computation.
Defined.

(** ** The value and the exit status of a computation *)

Lemma returns_bind {A B : Type} (Q1 : A -> Prop) (Q2 : B -> Prop) (m : M A) (k : A -> M B) :
  returns Q1 m -> (forall a, Q1 a -> returns Q2 (k a)) -> returns Q2 (bind m k).
Proof.
  intros Hm Hk b. rewrite result_bind.
  destruct (result m) as [a| | | | ] eqn:R; try discriminate.
  apply (Hk a). now apply Hm.
Qed.

Lemma returns_any {A : Type} (m : M A) : returns (fun _ => True) m.
Proof. now intros a _. Qed.

Lemma returns_ret {A : Type} (Q : A -> Prop) (a : A) : Q a -> returns Q (ret a).
Proof. intros HQ a' E. injection E as <-. exact HQ. Qed.

Lemma always_bind_returns {A B : Type} (P : event -> Prop) (Q : A -> Prop)
    (m : M A) (k : A -> M B) :
  always P m -> returns Q m -> (forall a, Q a -> always P (k a)) -> always P (bind m k).
Proof.
  intros Hm HQ Hk. unfold always in *. rewrite trace_bind.
  apply Forall_app. split; [exact Hm|].
  destruct (result m) as [a| | | | ] eqn:R; try constructor.
  apply Hk. now apply HQ.
Qed.

Lemma always_weaken {A : Type} (P Q : event -> Prop) (m : M A) :
  (forall ev, P ev -> Q ev) -> always P m -> always Q m.
Proof. intros HPQ. apply Forall_impl. exact HPQ. Qed.

Lemma string_of_buffer_returns (l : list byte) (k : nat) :
  returns (fun s => s = until_nul l) (string_of_buffer (stored l ++ repeat None k)).
Proof.
  induction l as [|b l IH]; simpl.
  - destruct k; intros a E; discriminate E.
  - destruct (Byte.eqb b NUL); [now apply returns_ret|].
    apply (returns_bind (fun s => s = until_nul l)); [exact IH|].
    intros s ->. now apply returns_ret.
Qed.

Lemma exits_bind {A B : Type} (m : M A) (k : A -> M B) :
  exits_only_1 m -> (forall a, exits_only_1 (k a)) -> exits_only_1 (bind m k).
Proof.
  intros Hm Hk s. rewrite result_bind.
  destruct (result m) as [a|s'| | | ] eqn:R; try discriminate.
  - apply Hk.
  - intros E. injection E as <-. now apply Hm.
Qed.

Lemma exits_never {A : Type} (m : M A) : (forall s, result m <> Exit s) -> exits_only_1 m.
Proof. intros Hm s E. now destruct (Hm s). Qed.

Lemma exits_if {A : Type} (c : bool) (m m' : M A) :
  exits_only_1 m -> exits_only_1 m' -> exits_only_1 (if c then m else m').
Proof. now destruct c. Qed.

Lemma exits_new_char (n : Z) : exits_only_1 (new_char n).
Proof. apply exits_never. intros s. unfold new_char. now destruct (n <? 0). Qed.

Lemma exits_memcpy (dst : buffer) (src : list byte) (n : Z) : exits_only_1 (memcpy dst src n).
Proof.
  apply exits_never. intros s. unfold memcpy.
  now destruct ((0 <=? n) && (n <=? len src) && (n <=? len dst)).
Qed.

Lemma exits_strcpy (dst : buffer) (off : Z) (src : list byte) :
  exits_only_1 (strcpy dst off src).
Proof.
  apply exits_never. intros s. unfold strcpy.
  now destruct ((0 <=? off) && (off + len (until_nul src ++ [NUL]) <=? len dst)).
Qed.

Lemma exits_string_of_buffer (buf : buffer) : exits_only_1 (string_of_buffer buf).
Proof.
  induction buf as [|[b|] buf IH]; simpl; try (apply exits_never; discriminate).
  destruct (Byte.eqb b NUL); [apply exits_never; discriminate|].
  apply exits_bind; [exact IH|intros s]. apply exits_never. discriminate.
Qed.

Lemma exits_cwrite (ch : channel) (buf : buffer) (n : Z) : exits_only_1 (cwrite ch buf n).
Proof.
  apply exits_never. intros s. unfold cwrite.
  now destruct ((0 <=? n) && (n <=? len buf)).
Qed.

Lemma exits_emit (ev : event) : exits_only_1 (emit ev).
Proof. now apply exits_never. Qed.

Lemma exits_ret {A : Type} (a : A) : exits_only_1 (ret a).
Proof. now apply exits_never. Qed.

Lemma exits_cread (ch : channel) (buf : buffer) (n : Z) (sent : list byte) :
  exits_only_1 (cread ch buf n sent).
Proof.
  unfold cread. apply exits_bind; [apply exits_emit|intros _].
  apply exits_never. intros s. now destruct ((0 <=? n) && (n <=? len buf)).
Qed.

Lemma exits_cread_value {A : Type} (ch : channel) (n : Z) (v : A) :
  exits_only_1 (cread_value ch n v).
Proof. now apply exits_never. Qed.

Lemma exits_return_1 {A : Type} : exits_only_1 (@return_ A 1).
Proof. intros s E. now injection E as <-. Qed.

Ltac exits_walk :=
  repeat match goal with
    | |- exits_only_1 (bind _ _) => apply exits_bind; [|intros ?]
    | |- exits_only_1 (if _ then _ else _) => apply exits_if
    | |- exits_only_1 (new_char _) => apply exits_new_char
    | |- exits_only_1 (memcpy _ _ _) => apply exits_memcpy
    | |- exits_only_1 (strcpy _ _ _) => apply exits_strcpy
    | |- exits_only_1 (string_of_buffer _) => apply exits_string_of_buffer
    | |- exits_only_1 (ret _) => apply exits_ret
    | |- exits_only_1 (stop _) => apply exits_never; discriminate
    | |- exits_only_1 (cread _ _ _ _) => apply exits_cread
    | |- exits_only_1 (cread_value _ _ _) => apply exits_cread_value
    | |- exits_only_1 (return_ 1) => apply exits_return_1
    | |- exits_only_1 (cwrite _ _ _) => apply exits_cwrite
    | |- exits_only_1 (emit _) => apply exits_emit
    end.

Lemma bind_exit_0 {A B : Type} (m : M A) (k : A -> M B) :
  exits_only_1 m -> result (bind m k) = Exit 0 ->
  exists a, result m = Ret a /\ result (k a) = Exit 0
            /\ trace (bind m k) = trace m ++ trace (k a).
Proof.
  intros Hm. rewrite result_bind, trace_bind.
  destruct (result m) as [a|s| | | ] eqn:R; try discriminate.
  - intros E. exists a. now repeat split.
  - intros E. injection E as ->. specialize (Hm 0 R). discriminate Hm.
Qed.

Section Exits.

Context {common_h : CommonH}.
Variable w : World.

Lemma exits_first_1000_loop (fuel : nat) (ch : channel) (C p : Z) (outfile : list byte) :
  forall i, exits_only_1 (first_1000_loop w fuel ch C p outfile i).
Proof.
  induction fuel as [|fuel IH]; intros i; cbn [first_1000_loop];
    destruct (i <? 1000)%float; unfold ask_datamsg; exits_walk.
  apply IH.
Qed.

Lemma exits_chunk_loop (fuel : nat) (ch : channel) (C : Z)
    (filename outputfile : list byte) (filelen : Z) :
  forall off, exits_only_1 (chunk_loop w fuel ch C filename outputfile filelen off).
Proof.
  induction fuel as [|fuel IH]; intros off; cbn [chunk_loop];
    destruct (off <? filelen); unfold send_filemsg; exits_walk.
  apply IH.
Qed.

Lemma exits_requests (fuel : nat) (o : Opts.locals) (ch : channel) :
  exits_only_1
    ((if (Opts.p o >=? 0) && (0 <=? Opts.t o)%float
      then request_data_point w ch (Opts.buffercapacity o) (Opts.p o) (Opts.t o) (Opts.e o)
      else if Opts.p o >=? 0
      then request_1000_points w fuel ch (Opts.buffercapacity o) (Opts.p o)
      else ret tt)).
Proof.
  unfold request_data_point, request_1000_points, ask_datamsg. exits_walk.
  apply exits_first_1000_loop.
Qed.

Lemma exits_file (fuel : nat) (o : Opts.locals) (ch : channel) :
  exits_only_1
    (if len (Opts.filename o) >? 0
     then request_file w fuel ch (Opts.buffercapacity o) (Opts.filename o)
     else ret tt).
Proof.
  unfold request_file, send_filemsg. exits_walk.
  apply exits_chunk_loop.
Qed.

Lemma exits_new_channel_request (C : Z) : exits_only_1 (new_channel_request w C).
Proof. unfold new_channel_request. exits_walk. Qed.

End Exits.

(** ** The channel of each request *)

Ltac on_channel_leaf := first [exact I | reflexivity | intros; reflexivity | intros; exact I].

Section ActiveChannel.

Context {common_h : CommonH}.
Variable w : World.

Lemma on_channel_first_1000_loop (fuel : nat) (ch : channel) (C p : Z) (outfile : list byte) :
  forall i, always (on_channel ch) (first_1000_loop w fuel ch C p outfile i).
Proof.
  induction fuel as [|fuel IH]; intros i; cbn [first_1000_loop];
    destruct (i <? 1000)%float; unfold ask_datamsg; walk; try on_channel_leaf.
  apply IH.
Qed.

Lemma on_channel_chunk_loop (fuel : nat) (ch : channel) (C : Z)
    (filename outputfile : list byte) (filelen : Z) :
  forall off, always (on_channel ch) (chunk_loop w fuel ch C filename outputfile filelen off).
Proof.
  induction fuel as [|fuel IH]; intros off; cbn [chunk_loop];
    destruct (off <? filelen); unfold send_filemsg; walk; try on_channel_leaf.
  apply IH.
Qed.

Lemma closing_the_channel_run (ch : channel) (c : bool) :
  closing_the_channel ch c
  = ([Cout (Say_closing (name ch)); Cwrite ch (tag_request QUIT_MSG)]
       ++ (if c then [Chan_delete ch] else []),
     Ret tt).
Proof.
  unfold closing_the_channel. run_emit.
  rewrite cwrite_run by (rewrite len_stored; symmetry; apply repr_MESSAGE_TYPE_size).
  run_emit. now destruct c.
Qed.

(** What [main] does once the active channel is chosen stays on it. *)
Lemma on_channel_requests (fuel : nat) (o : Opts.locals) (ch : channel) :
  always (on_channel ch)
    ((if (Opts.p o >=? 0) && (0 <=? Opts.t o)%float
      then request_data_point w ch (Opts.buffercapacity o) (Opts.p o) (Opts.t o) (Opts.e o)
      else if Opts.p o >=? 0
      then request_1000_points w fuel ch (Opts.buffercapacity o) (Opts.p o)
      else ret tt) ;;
     (if len (Opts.filename o) >? 0
      then request_file w fuel ch (Opts.buffercapacity o) (Opts.filename o)
      else ret tt) ;;
     closing_the_channel ch (Opts.c o) ;;
     return_ (A := unit) 0).
Proof.
  unfold request_data_point, request_1000_points, request_file, closing_the_channel,
    ask_datamsg, send_filemsg.
  walk; try on_channel_leaf.
  - apply on_channel_first_1000_loop.
  - apply on_channel_chunk_loop.
Qed.

Lemma always_new_channel_request (P : event -> Prop) (C : Z) :
  P (Cwrite chan (tag_request NEWCHANNEL_MSG)) -> P (Cread chan 30) ->
  (forall n, P (Chan_open (new_chan n))) ->
  always P (new_channel_request w C).
Proof.
  intros Hwrite Hread Hopen. unfold new_channel_request.
  apply always_bind; [walk|intros buf]. unfold memcpy.
  destruct ((0 <=? sizeof_MESSAGE_TYPE)
            && (sizeof_MESSAGE_TYPE <=? len (repr_MESSAGE_TYPE NEWCHANNEL_MSG))
            && (sizeof_MESSAGE_TYPE <=? len buf)).
  - rewrite bind_ret. rewrite <- (repr_MESSAGE_TYPE_size NEWCHANNEL_MSG) at 1.
    rewrite take_len.
    rewrite cwrite_front by (symmetry; apply repr_MESSAGE_TYPE_size).
    walk; auto.
  - now apply always_silent.
Qed.

Lemma new_channel_request_returns (C : Z) :
  returns (fun a => a = new_chan (until_nul (take 30 (reply_newchannel w))))
    (new_channel_request w C).
Proof.
  unfold new_channel_request.
  apply (returns_bind (fun _ => True)); [apply returns_any|intros buf _].
  apply (returns_bind (fun _ => True)); [apply returns_any|intros buf' _].
  apply (returns_bind (fun _ => True)); [apply returns_any|intros _ _].
  apply (returns_bind (fun buf2 => buf2 = received 30 (reply_newchannel w))).
  - change (repeat (@None byte) 30) with (repeat (@None byte) (Z.to_nat 30)).
    rewrite cread_run by lia. intros a E. now injection E as <-.
  - intros buf2 ->. rewrite received_30.
    apply (returns_bind (fun s => s = until_nul (take 30 (reply_newchannel w))));
      [apply string_of_buffer_returns|intros s ->].
    apply (returns_bind (fun _ => True)); [apply returns_any|intros _ _].
    now apply returns_ret.
Qed.

Lemma written_to_control (new_name : list byte) (tr : list event) :
  new_name <> lit "control" ->
  Forall (handshake_or_new new_name) tr ->
  forall msg, In msg (written_to (lit "control") tr) -> msg = tag_request NEWCHANNEL_MSG.
Proof.
  intros Hname Htr. induction Htr as [|ev tr Hev _ IH]; intros msg Hin; [destruct Hin|].
  destruct ev; simpl in Hin; try (now apply IH).
  unfold path_eqb in Hin.
  destruct (list_eq_dec Byte.byte_eq_dec (lit "control") (name ch)) as [E|_];
    [|now apply IH].
  destruct Hin as [<-|Hin]; [|now apply IH].
  destruct Hev as [[_ ->] | ->]; [reflexivity|].
  simpl in E. congruence.
Qed.

Lemma tag_request_inj (m m' : MESSAGE_TYPE) : tag_request m = tag_request m' -> m = m'.
Proof.
  intros E. apply repr_MESSAGE_TYPE_inj.
  unfold tag_request, stored in E.
  revert E. generalize (repr_MESSAGE_TYPE m) (repr_MESSAGE_TYPE m').
  induction l as [|b l IH]; intros [|b' l'] E; try discriminate; [reflexivity|].
  injection E as -> E. f_equal. now apply IH.
Qed.

End ActiveChannel.

(** C9. When a new channel is requested, the only message the client
    writes to the control channel is the NEWCHANNEL tag and the only
    read on it is the 30-byte reply; every later request and reply is
    on the new channel (whose name is not "control"), and the QUIT of a
    run that ends with status 0 is written to the new channel: no QUIT
    is ever written to the control channel. *)
Theorem quit_goes_to_the_new_channel {common_h : CommonH}
    (w : World) (fuel : nat) (argv : list option_arg) :
  Opts.c (getopt_loop argv) = true ->
  until_nul (take 30 (reply_newchannel w)) <> lit "control" ->
  always (handshake_or_new (until_nul (take 30 (reply_newchannel w)))) (main w fuel argv)
  /\ ~ In (stored (repr_MESSAGE_TYPE QUIT_MSG))
         (written_to (lit "control") (trace (main w fuel argv)))
  /\ (exit_status (main w fuel argv) = Some 0 ->
      In (Cwrite (new_chan (until_nul (take 30 (reply_newchannel w))))
            (stored (repr_MESSAGE_TYPE QUIT_MSG)))
         (trace (main w fuel argv))).
Proof.
  intros Hc Hname.
  set (new_name := until_nul (take 30 (reply_newchannel w))) in *.
  assert (Hall : always (handshake_or_new new_name) (main w fuel argv)).
  { unfold main. cbv zeta. rewrite Hc.
    apply always_bind; [now apply always_emit|intros _].
    apply always_bind; [now apply always_emit|intros _].
    apply (always_bind_returns _ (fun a => a = new_chan new_name)).
    - apply always_new_channel_request; simpl; auto.
    - apply new_channel_request_returns.
    - intros active_chan ->.
      apply (always_weaken (on_channel (new_chan new_name))).
      + intros [] Hev; simpl in *; auto.
      + rewrite <- Hc. apply on_channel_requests. }
  split; [exact Hall|]. split.
  - intros Hin. apply (written_to_control new_name _ Hname Hall) in Hin.
    apply tag_request_inj in Hin. discriminate Hin.
  - unfold exit_status.
    destruct (result (main w fuel argv)) as [|s| | | ] eqn:R; try discriminate.
    intros E. injection E as ->. revert R. unfold main. cbv zeta. rewrite Hc.
    intros R.
    apply bind_exit_0 in R as (_ & _ & R & ->); [|apply exits_emit].
    apply in_or_app. right.
    apply bind_exit_0 in R as (_ & _ & R & ->); [|apply exits_emit].
    apply in_or_app. right.
    apply bind_exit_0 in R as (active_chan & Hactive & R & ->);
      [|apply exits_new_channel_request].
    apply new_channel_request_returns in Hactive. subst active_chan.
    apply in_or_app. right.
    apply bind_exit_0 in R as (_ & _ & R & ->); [|apply exits_requests].
    apply in_or_app. right.
    apply bind_exit_0 in R as (_ & _ & R & ->); [|apply exits_file].
    apply in_or_app. right.
    rewrite (bind_run _ _ _ _ (closing_the_channel_run (new_chan new_name) true)).
    cbn [trace fst]. apply in_or_app. left. simpl. auto.
Qed.

Lemma quit_goes_to_the_new_channel_witness :
  In (Cwrite (new_chan (lit "data1_")) (stored (x86_64_MESSAGE_TYPE QUIT_MSG)))
     (trace (main (common_h := x86_64) (file_server sample_file) 3
               [Opt_c; Opt_f (lit "f.bin"); Opt_m 1024])).
Proof.
  refine (proj2 (proj2 (quit_goes_to_the_new_channel (common_h := x86_64)
                          (file_server sample_file) 3
                          [Opt_c; Opt_f (lit "f.bin"); Opt_m 1024] _ _)) _).
  - reflexivity.
  - by_computation.
  - vm_compute. reflexivity.
Defined.

(** ** The option loop *)

Section Options.

Context {common_h : CommonH}.

Lemma fold_switch_filename_no_nul (argv : list option_arg) :
  forall o, ~ In NUL (Opts.filename o) ->
            ~ In NUL (Opts.filename (fold_left switch_opt argv o)).
Proof.
  induction argv as [|opt argv IH]; intros o Ho; [exact Ho|].
  simpl. apply IH. destruct opt; simpl; try exact Ho.
  apply until_nul_no_nul.
Qed.

Lemma getopt_filename_no_nul (argv : list option_arg) :
  ~ In NUL (Opts.filename (getopt_loop argv)).
Proof. apply fold_switch_filename_no_nul. simpl. tauto. Qed.




End Options.

Lemma geb_false (p : Z) : p < 0 -> (p >=? 0) = false.
Proof. intros Hp. rewrite Z.geb_leb. now apply Z.leb_gt. Qed.

Lemma geb_true (p : Z) : 0 <= p -> (p >=? 0) = true.
Proof. intros Hp. rewrite Z.geb_leb. now apply Z.leb_le. Qed.

Lemma gtb_true (n : Z) : 0 < n -> (n >? 0) = true.
Proof. intros Hn. rewrite Z.gtb_ltb. now apply Z.ltb_lt. Qed.

(** ** The runs that end early or transfer nothing *)

Section Endings.

Context {common_h : CommonH}.
Variable w : World.

Lemma request_file_nothing (fuel : nat) (ch : channel) (C L : Z) (filename : list byte) :
  ~ In NUL filename -> fits filename ->
  reply_filelen w filename = L -> L <= 0 ->
  ofs_is_open w (lit "received/" ++ filename) = true ->
  request_file w fuel ch C filename
  = (probe_events ch filename L ++ [Ofs_close (lit "received/" ++ filename)], Ret tt).
Proof.
  intros Hnul Hfits Hlen HL Hopen. unfold request_file.
  rewrite send_filemsg_run by assumption. run_emit.
  run (cread_value_run ch sizeof_int64 (reply_filelen w filename)).
  rewrite Hlen, Hopen. do 2 run_emit. cbn [negb]. run_ret.
  rewrite chunk_loop_done, bind_ret by lia.
  reflexivity.
Qed.

Lemma request_file_cannot_open (fuel : nat) (ch : channel) (C : Z) (filename : list byte) :
  ~ In NUL filename -> fits filename ->
  ofs_is_open w (lit "received/" ++ filename) = false ->
  request_file w fuel ch C filename
  = ([ Cwrite ch (file_request (Filemsg 0 0) filename);
       Cread ch sizeof_int64;
       Cout (Say_file_length filename (reply_filelen w filename));
       Ofs_open (lit "received/" ++ filename) false;
       Cout (Say_could_not_open (lit "received/" ++ filename));
       Chan_destroy chan ],
     Exit 1).
Proof.
  intros Hnul Hfits Hopen. unfold request_file.
  rewrite send_filemsg_run by assumption. run_emit.
  run (cread_value_run ch sizeof_int64 (reply_filelen w filename)).
  rewrite Hopen. do 2 run_emit. cbn [negb]. reflexivity.
Qed.

Lemma request_1000_points_cannot_open (fuel : nat) (ch : channel) (C p : Z) :
  ofs_is_open w (lit "received/x" ++ to_string p ++ lit ".csv") = false ->
  request_1000_points w fuel ch C p
  = ([ Ofs_open (lit "received/x" ++ to_string p ++ lit ".csv") false;
       Cout (Say_could_not_open (lit "received/x" ++ to_string p ++ lit ".csv"));
       Chan_destroy chan ],
     Exit 1).
Proof.
  intros Hopen. unfold request_1000_points. cbv zeta. rewrite Hopen.
  run_emit. reflexivity.
Qed.

End Endings.

(** C6. The QUIT message is not written on the early-return paths: when
    the output file of the 1000 data points, or the output file of a
    file transfer, does not open, [main] returns 1 right after the
    message on [cout]; the channel is destroyed without a QUIT. *)
Theorem quit_is_skipped_on_early_return {common_h : CommonH}
    (w : World) (fuel : nat) (argv : list option_arg) :
  Opts.c (getopt_loop argv) = false ->
  (0 <= Opts.p (getopt_loop argv) ->
   (0 <=? Opts.t (getopt_loop argv))%float = false ->
   ofs_is_open w (lit "received/x" ++ to_string (Opts.p (getopt_loop argv)) ++ lit ".csv")
   = false ->
   main w fuel argv
   = ([ Fork_exec [lit "./server"; lit "-m";
                   to_string (Opts.buffercapacity (getopt_loop argv))];
        Chan_open chan;
        Ofs_open (lit "received/x" ++ to_string (Opts.p (getopt_loop argv)) ++ lit ".csv")
          false;
        Cout (Say_could_not_open
                (lit "received/x" ++ to_string (Opts.p (getopt_loop argv)) ++ lit ".csv"));
        Chan_destroy chan ],
      Exit 1))
  /\ (Opts.p (getopt_loop argv) < 0 ->
      0 < len (Opts.filename (getopt_loop argv)) ->
      fits (Opts.filename (getopt_loop argv)) ->
      ofs_is_open w (lit "received/" ++ Opts.filename (getopt_loop argv)) = false ->
      main w fuel argv
      = ([ Fork_exec [lit "./server"; lit "-m";
                      to_string (Opts.buffercapacity (getopt_loop argv))];
           Chan_open chan;
           Cwrite chan (file_request (Filemsg 0 0) (Opts.filename (getopt_loop argv)));
           Cread chan sizeof_int64;
           Cout (Say_file_length (Opts.filename (getopt_loop argv))
                   (reply_filelen w (Opts.filename (getopt_loop argv))));
           Ofs_open (lit "received/" ++ Opts.filename (getopt_loop argv)) false;
           Cout (Say_could_not_open (lit "received/" ++ Opts.filename (getopt_loop argv)));
           Chan_destroy chan ],
         Exit 1)).
Proof.
  intros Hc. split.
  - intros Hp Ht Hopen. unfold main. cbv zeta. rewrite Hc.
    do 2 run_emit. run_ret.
    rewrite (geb_true _ Hp), Ht. cbn [andb].
    rewrite (request_1000_points_cannot_open w fuel chan _ _ Hopen).
    reflexivity.
  - intros Hp Hlen Hfits Hopen. unfold main. cbv zeta. rewrite Hc.
    do 2 run_emit. run_ret.
    rewrite (geb_false _ Hp). cbn [andb]. run_ret.
    rewrite (gtb_true _ Hlen).
    rewrite (request_file_cannot_open w fuel chan _ _
               (getopt_filename_no_nul argv) Hfits Hopen).
    reflexivity.
Qed.

Lemma quit_is_skipped_on_early_return_witness :
  main (common_h := x86_64) (without_received_directory (file_server sample_file)) 1000
    [Opt_p 1]
  = ([ Fork_exec [lit "./server"; lit "-m"; lit "256"];
       Chan_open chan;
       Ofs_open (lit "received/x1.csv") false;
       Cout (Say_could_not_open (lit "received/x1.csv"));
       Chan_destroy chan ],
     Exit 1).
Proof.
  refine (proj1 (quit_is_skipped_on_early_return (common_h := x86_64)
                   (without_received_directory (file_server sample_file)) 1000
                   [Opt_p 1] _) _ _ _).
  - reflexivity.
  - by_computation.
  - reflexivity.
  - reflexivity.
Defined.

(** C5, as the specification states it, fails: against a server that
    answers the length probe with -1 the client exits with status 0,
    has created the output file and written nothing to it, and says
    nothing about a failure; but for the length it prints, the run is
    the run of a transfer of an empty file. *)
Lemma file_not_found_is_silent :
  reply_filelen file_not_found_server (lit "missing.bin") = -1
  /\ exit_status (main (common_h := x86_64) file_not_found_server 0
                    [Opt_f (lit "missing.bin")]) = Some 0
  /\ In (Ofs_open (lit "received/missing.bin") true)
        (trace (main (common_h := x86_64) file_not_found_server 0
                  [Opt_f (lit "missing.bin")]))
  /\ ofs_written (lit "received/missing.bin")
       (trace (main (common_h := x86_64) file_not_found_server 0
                 [Opt_f (lit "missing.bin")])) = []
  /\ map with_length_0
       (trace (main (common_h := x86_64) file_not_found_server 0
                 [Opt_f (lit "missing.bin")]))
     = trace (main (common_h := x86_64) (file_server []) 0 [Opt_f (lit "missing.bin")]).
Proof.
  split; [reflexivity|]. split; [reflexivity|].
  split; [vm_compute; tauto|]. split; reflexivity.
Qed.

(** C5, amended. When the reply to the length probe is not positive,
    the sentinel -1 of a missing file included, the client prints the
    length it received, creates the output file, asks for no chunk and
    writes nothing to the file, closes it, writes QUIT and exits with
    status 0: a missing file is treated as an empty one. *)
Theorem not_positive_length_gives_an_empty_file {common_h : CommonH}
    (w : World) (fuel : nat) (argv : list option_arg) :
  Opts.c (getopt_loop argv) = false ->
  Opts.p (getopt_loop argv) < 0 ->
  0 < len (Opts.filename (getopt_loop argv)) ->
  fits (Opts.filename (getopt_loop argv)) ->
  reply_filelen w (Opts.filename (getopt_loop argv)) <= 0 ->
  ofs_is_open w (lit "received/" ++ Opts.filename (getopt_loop argv)) = true ->
  main w fuel argv
  = ([ Fork_exec [lit "./server"; lit "-m";
                  to_string (Opts.buffercapacity (getopt_loop argv))];
       Chan_open chan;
       Cwrite chan (file_request (Filemsg 0 0) (Opts.filename (getopt_loop argv)));
       Cread chan sizeof_int64;
       Cout (Say_file_length (Opts.filename (getopt_loop argv))
               (reply_filelen w (Opts.filename (getopt_loop argv))));
       Ofs_open (lit "received/" ++ Opts.filename (getopt_loop argv)) true;
       Ofs_close (lit "received/" ++ Opts.filename (getopt_loop argv));
       Cout (Say_closing (lit "control"));
       Cwrite chan (stored (repr_MESSAGE_TYPE QUIT_MSG));
       Chan_destroy chan ],
     Exit 0).
Proof.
  intros Hc Hp Hlen Hfits HL Hopen. unfold main. cbv zeta. rewrite Hc.
  do 2 run_emit. run_ret.
  rewrite (geb_false _ Hp). cbn [andb]. run_ret.
  rewrite (gtb_true _ Hlen).
  run (request_file_nothing w fuel chan (Opts.buffercapacity (getopt_loop argv)) _ _
         (getopt_filename_no_nul argv) Hfits eq_refl HL Hopen).
  run (closing_the_channel_run chan false).
  reflexivity.
Qed.

Lemma not_positive_length_gives_an_empty_file_witness :
  exit_status (main (common_h := x86_64) file_not_found_server 0
                 [Opt_f (lit "missing.bin")]) = Some 0.
Proof.
  refine (f_equal exit_status
            (not_positive_length_gives_an_empty_file (common_h := x86_64)
               file_not_found_server 0 [Opt_f (lit "missing.bin")] _ _ _ _ _ _)).
  - reflexivity.
  - by_computation.
  - by_computation.
  - by_computation.
  - by_computation.
  - reflexivity.
Defined.


(** ** Runs on concrete inputs *)

Example to_string_256 : to_string 256 = lit "256".
Proof. reflexivity. Qed.

Example to_int_wraps : to_int (2 ^ 31) = - 2 ^ 31 /\ to_int64 (INT64_MAX + 1) = - 2 ^ 63.
Proof. split; reflexivity. Qed.

Example datamsg_bytes :
  x86_64_datamsg (Datamsg 3 0.004%float 2)
  = [ x00; x00; x00; x00;  x03; x00; x00; x00;
      xfc; xa9; xf1; xd2; x4d; x62; x70; x3f;
      x02; x00; x00; x00;  x00; x00; x00; x00 ].
Proof. vm_compute. reflexivity. Qed.

(** ./client -p 3 -t 0.004 -e 2 *)
Example one_data_point :
  main (common_h := x86_64) (file_server sample_file) 0
    [Opt_p 3; Opt_t 0.004%float; Opt_e 2]
  = ([ Fork_exec [lit "./server"; lit "-m"; lit "256"];
       Chan_open chan;
       Cwrite chan (stored (x86_64_datamsg (Datamsg 3 0.004%float 2)));
       Cread chan 8;
       Cout (Say_value 3 0.004%float 2 0%float);
       Cout (Say_closing (lit "control"));
       Cwrite chan (stored (x86_64_MESSAGE_TYPE QUIT_MSG));
       Chan_destroy chan ],
     Exit 0).
Proof. vm_compute. reflexivity. Qed.

(** ./client -p 1: the loop over the data points takes 1000 turns, of two
    requests each. *)
Example first_1000_points :
  exit_status (main (common_h := x86_64) (file_server sample_file) 1000 [Opt_p 1]) = Some 0
  /\ List.length (written_to (lit "control")
                    (trace (main (common_h := x86_64) (file_server sample_file) 1000
                              [Opt_p 1]))) = 2001%nat
  /\ result (main (common_h := x86_64) (file_server sample_file) 999 [Opt_p 1]) = OutOfFuel.
Proof. repeat split; vm_compute; reflexivity. Qed.

(** ./client -c -m 1024 -f f.bin against a server with a file of 2500
    bytes: what is read from the channels. *)
Example reads_of_a_transfer :
  filter (fun ev => match ev with Cread _ _ => true | _ => false end)
    (trace (main (common_h := x86_64) (file_server sample_file) 3
              [Opt_c; Opt_m 1024; Opt_f (lit "f.bin")]))
  = [ Cread chan 30;
      Cread (new_chan (lit "data1_")) 8;
      Cread (new_chan (lit "data1_")) 1024;
      Cread (new_chan (lit "data1_")) 1024;
      Cread (new_chan (lit "data1_")) 452 ].
Proof. vm_compute. reflexivity. Qed.


(** ** The option loop: order and repetition *)

Section OptionOrder.

Context {common_h : CommonH}.

Lemma switch_opt_swap (o : Opts.locals) (x y : option_arg) :
  letter x <> letter y ->
  switch_opt (switch_opt o x) y = switch_opt (switch_opt o y) x.
Proof. intros Hxy. destruct x, y; try reflexivity; now destruct Hxy. Qed.

Lemma switch_opt_again (o : Opts.locals) (x y : option_arg) :
  letter x = letter y -> switch_opt (switch_opt o x) y = switch_opt o y.
Proof. intros Hxy. destruct x, y; try reflexivity; discriminate Hxy. Qed.

End OptionOrder.

(** X1. The option loop of lines 28-49 keeps, of each option letter, the
    last occurrence only, and two neighbouring options of different
    letters may be given in either order. *)
Theorem later_option_wins_and_order_is_free {common_h : CommonH}
    (before after : list option_arg) (x y : option_arg) :
  (letter x = letter y ->
   getopt_loop (before ++ x :: y :: after) = getopt_loop (before ++ y :: after))
  /\ (letter x <> letter y ->
      getopt_loop (before ++ x :: y :: after) = getopt_loop (before ++ y :: x :: after)).
Proof.
  unfold getopt_loop. split; intros Hxy; rewrite !fold_left_app; cbn [fold_left].
  - now rewrite switch_opt_again.
  - now rewrite switch_opt_swap.
Qed.

(** ** The first 1000 data points *)

Lemma loop_values_1000 :
  loop_values 1000 0%float = (map double_of_nat (seq 0 1000), true).
Proof. vm_compute. reflexivity. Qed.

Lemma loop_values_more (n : nat) :
  forall i k, snd (loop_values n i) = true -> loop_values (n + k) i = loop_values n i.
Proof.
  induction n as [|n IH]; intros i k; cbn [loop_values Nat.add].
  - destruct k as [|k]; cbn [loop_values]; destruct (i <? 1000)%float;
      try reflexivity; discriminate.
  - destruct (i <? 1000)%float; [|reflexivity].
    specialize (IH (i + 1)%float k).
    destruct (loop_values n (i + 1)%float) as [l ended]. cbn [snd].
    intros ->. now rewrite IH.
Qed.

Section FirstThousand.

Context {common_h : CommonH}.
Variable w : World.

Lemma first_1000_loop_run (ch : channel) (C p : Z) (outfile : list byte) (fuel : nat) :
  sizeof_datamsg <= C ->
  forall i,
    first_1000_loop w fuel ch C p outfile i
    = (flat_map (turn_events w ch p outfile) (fst (loop_values fuel i)),
       if snd (loop_values fuel i) then Ret tt else OutOfFuel).
Proof.
  intros HC. induction fuel as [|fuel IH]; intros i.
  - cbn [first_1000_loop loop_values]. now destruct (i <? 1000)%float.
  - destruct (i <? 1000)%float eqn:Hi.
    + rewrite first_1000_loop_step by assumption. rewrite IH.
      cbn [loop_values]. rewrite Hi.
      destruct (loop_values fuel (i + 1)%float) as [l ended]. reflexivity.
    + cbn [first_1000_loop loop_values]. now rewrite Hi.
Qed.

Lemma request_1000_points_run (ch : channel) (C p : Z) (fuel : nat) :
  sizeof_datamsg <= C ->
  ofs_is_open w (lit "received/x" ++ to_string p ++ lit ".csv") = true ->
  (1000 <= fuel)%nat ->
  request_1000_points w fuel ch C p
  = (Ofs_open (lit "received/x" ++ to_string p ++ lit ".csv") true
       :: flat_map (turn_events w ch p (lit "received/x" ++ to_string p ++ lit ".csv"))
            (map double_of_nat (seq 0 1000))
       ++ [Ofs_close (lit "received/x" ++ to_string p ++ lit ".csv")],
     Ret tt).
Proof.
  intros HC Hopen Hfuel. unfold request_1000_points. cbv zeta. rewrite Hopen.
  run_emit. cbn [negb]. run_ret.
  rewrite first_1000_loop_run by exact HC.
  replace fuel with (1000 + (fuel - 1000))%nat by lia.
  rewrite loop_values_more by (now rewrite loop_values_1000).
  rewrite loop_values_1000. cbn [fst snd].
  rewrite (bind_run _ _ _ tt eq_refl). reflexivity.
Qed.

End FirstThousand.

(** ** Complete runs *)

Section CompleteRuns.

Context {common_h : CommonH}.
Variable w : World.

(** A run whose three parts go on ends with the QUIT and status 0. *)
Lemma main_completes (fuel : nat) (argv : list option_arg) (active_chan : channel)
    (handshake data file : list event) :
  establish w (getopt_loop argv) = (handshake, Ret active_chan) ->
  (if (Opts.p (getopt_loop argv) >=? 0) && (0 <=? Opts.t (getopt_loop argv))%float
   then request_data_point w active_chan (Opts.buffercapacity (getopt_loop argv))
          (Opts.p (getopt_loop argv)) (Opts.t (getopt_loop argv)) (Opts.e (getopt_loop argv))
   else if Opts.p (getopt_loop argv) >=? 0
   then request_1000_points w fuel active_chan (Opts.buffercapacity (getopt_loop argv))
          (Opts.p (getopt_loop argv))
   else ret tt) = (data, Ret tt) ->
  (if len (Opts.filename (getopt_loop argv)) >? 0
   then request_file w fuel active_chan (Opts.buffercapacity (getopt_loop argv))
          (Opts.filename (getopt_loop argv))
   else ret tt) = (file, Ret tt) ->
  main w fuel argv
  = (opening_events (getopt_loop argv) ++ handshake ++ data ++ file
       ++ closing_events active_chan (Opts.c (getopt_loop argv)),
     Exit 0).
Proof.
  intros Hhandshake Hdata Hfile. unfold main. cbv zeta.
  do 2 run_emit.
  run Hhandshake. run Hdata. run Hfile.
  run (closing_the_channel_run active_chan (Opts.c (getopt_loop argv))).
  unfold opening_events, closing_events, return_, tag_request. cbn [app].
  rewrite bind_emit. cbn [stop trace result fst snd].
  rewrite <- ?app_assoc. reflexivity.
Qed.

End CompleteRuns.

Section NothingWritten.

Context {common_h : CommonH}.
Variable w : World.

Lemma ofs_written_nothing (path : list byte) (tr : list event) :
  Forall writes_no_block tr -> ofs_written path tr = [].
Proof.
  induction 1 as [|ev tr Hev _ IH]; [reflexivity|].
  destruct ev; simpl in *; try exact IH. destruct Hev.
Qed.

Lemma establish_writes_no_file (o : Opts.locals) (path : list byte) :
  ofs_written path (trace (establish w o)) = [].
Proof.
  apply ofs_written_nothing. unfold establish.
  destruct (Opts.c o); [|constructor].
  apply always_new_channel_request; simpl; auto.
Qed.

End NothingWritten.

Lemma transfer_writes_the_file {common_h : CommonH}
    (w : World) (ch : channel) (filename file : list byte) (C : Z) (fuel : nat) :
  0 < C <= INT_MAX -> len file + C <= INT64_MAX ->
  ~ In NUL filename -> fits filename ->
  serves w filename file ->
  ofs_is_open w (lit "received/" ++ filename) = true ->
  len file <= Z.of_nat fuel * C ->
  ofs_written (lit "received/" ++ filename) (trace (request_file w fuel ch C filename))
  = stored file.
Proof.
  intros HC Hmax Hnul Hfits Hserves Hopen Hfuel.
  pose proof (len_nonneg file) as HL.
  assert (Htiles : tiles C (len file) 0 (chunk_plan C (len file)))
    by (apply chunk_plan_tiles; lia).
  rewrite (request_file_run w ch filename Hnul Hfits C (len file) fuel
             HC HL Hmax (proj1 Hserves) Hopen Hfuel).
  cbn [trace fst].
  rewrite !ofs_written_app, ofs_written_chunks.
  cbn [probe_events ofs_written app]. rewrite app_nil_r.
  rewrite (received_of_server w filename file _ Hserves)
    by (apply (tiles_within C (len file) 0); [lia|lia|exact Htiles]).
  rewrite stored_concat.
  rewrite (tiles_slices C (len file) file 0) by (try exact Htiles; lia || reflexivity).
  reflexivity.
Qed.

(** X2. With -p and no -t, an output file that opens and a capacity of
    at least sizeof(datamsg), the client asks for exactly 1000 pairs of
    data points, ecg 1 then ecg 2 at the times k * 0.004 for k = 0 ..
    999, writes one row for each pair, closes the file, writes QUIT and
    exits with status 0. *)
Theorem first_1000_points_run {common_h : CommonH}
    (w : World) (fuel : nat) (argv : list option_arg)
    (active_chan : channel) (handshake : list event) :
  establish w (getopt_loop argv) = (handshake, Ret active_chan) ->
  0 <= Opts.p (getopt_loop argv) ->
  (0 <=? Opts.t (getopt_loop argv))%float = false ->
  len (Opts.filename (getopt_loop argv)) = 0 ->
  sizeof_datamsg <= Opts.buffercapacity (getopt_loop argv) ->
  ofs_is_open w (lit "received/x" ++ to_string (Opts.p (getopt_loop argv)) ++ lit ".csv")
  = true ->
  (1000 <= fuel)%nat ->
  main w fuel argv
  = (opening_events (getopt_loop argv) ++ handshake
       ++ (Ofs_open (lit "received/x" ++ to_string (Opts.p (getopt_loop argv)) ++ lit ".csv")
             true
           :: flat_map
                (turn_events w active_chan (Opts.p (getopt_loop argv))
                   (lit "received/x" ++ to_string (Opts.p (getopt_loop argv)) ++ lit ".csv"))
                (map double_of_nat (seq 0 1000))
           ++ [Ofs_close
                 (lit "received/x" ++ to_string (Opts.p (getopt_loop argv)) ++ lit ".csv")])
       ++ [] ++ closing_events active_chan (Opts.c (getopt_loop argv)),
     Exit 0).
Proof.
  intros Hhandshake Hp Ht Hfile HC Hopen Hfuel.
  apply main_completes; [exact Hhandshake| |].
  - rewrite (geb_true _ Hp), Ht. cbn [andb].
    now apply request_1000_points_run.
  - rewrite Hfile. reflexivity.
Qed.

Lemma first_1000_points_run_witness :
  len (trace (main (common_h := x86_64) (file_server sample_file) 1000 [Opt_p 7])) = 5007.
Proof.
  rewrite (first_1000_points_run (common_h := x86_64) (file_server sample_file) 1000
             [Opt_p 7] chan []).
  - vm_compute. reflexivity.
  - reflexivity.
  - by_computation.
  - reflexivity.
  - reflexivity.
  - by_computation.
  - reflexivity.
  - apply Nat.le_refl.
Defined.

(** X3. Without -p and without -f no request is made: whatever -t, -e
    and -m are, a negative capacity included, the client writes QUIT on
    the active channel and exits with status 0. *)
Theorem run_without_a_request {common_h : CommonH}
    (w : World) (fuel : nat) (argv : list option_arg)
    (active_chan : channel) (handshake : list event) :
  establish w (getopt_loop argv) = (handshake, Ret active_chan) ->
  Opts.p (getopt_loop argv) < 0 ->
  len (Opts.filename (getopt_loop argv)) = 0 ->
  main w fuel argv
  = (opening_events (getopt_loop argv) ++ handshake ++ [] ++ []
       ++ closing_events active_chan (Opts.c (getopt_loop argv)),
     Exit 0).
Proof.
  intros Hhandshake Hp Hfile.
  apply main_completes; [exact Hhandshake| |].
  - rewrite (geb_false _ Hp). reflexivity.
  - rewrite Hfile. reflexivity.
Qed.

Lemma run_without_a_request_witness :
  main (common_h := x86_64) file_not_found_server 0 [Opt_t 2%float; Opt_e 2; Opt_m (-3)]
  = ([ Fork_exec [lit "./server"; lit "-m"; lit "-3"];
       Chan_open chan;
       Cout (Say_closing (lit "control"));
       Cwrite chan (stored (x86_64_MESSAGE_TYPE QUIT_MSG));
       Chan_destroy chan ],
     Exit 0).
Proof.
  refine (run_without_a_request (common_h := x86_64) file_not_found_server 0
            [Opt_t 2%float; Opt_e 2; Opt_m (-3)] chan [] _ _ _).
  - reflexivity.
  - by_computation.
  - reflexivity.
Defined.

(** X4. A file transfer through [main], with or without a new channel:
    against a server that holds the file (of any length, zero included)
    and with a positive capacity, the run is the opening, the handshake,
    the probe, the chunks of the plan, the closing of the file and the
    QUIT; it exits with status 0 and what it wrote to the output file is
    the file. *)
Theorem file_transfer_end_to_end {common_h : CommonH}
    (w : World) (fuel : nat) (argv : list option_arg)
    (active_chan : channel) (handshake : list event) (file : list byte) :
  establish w (getopt_loop argv) = (handshake, Ret active_chan) ->
  Opts.p (getopt_loop argv) < 0 ->
  0 < len (Opts.filename (getopt_loop argv)) ->
  fits (Opts.filename (getopt_loop argv)) ->
  0 < Opts.buffercapacity (getopt_loop argv) <= INT_MAX ->
  len file + Opts.buffercapacity (getopt_loop argv) <= INT64_MAX ->
  serves w (Opts.filename (getopt_loop argv)) file ->
  ofs_is_open w (lit "received/" ++ Opts.filename (getopt_loop argv)) = true ->
  len file <= Z.of_nat fuel * Opts.buffercapacity (getopt_loop argv) ->
  main w fuel argv
  = (opening_events (getopt_loop argv) ++ handshake ++ []
       ++ (probe_events active_chan (Opts.filename (getopt_loop argv)) (len file)
           ++ flat_map
                (chunk_events w active_chan (Opts.filename (getopt_loop argv))
                   (lit "received/" ++ Opts.filename (getopt_loop argv)))
                (chunk_plan (Opts.buffercapacity (getopt_loop argv)) (len file))
           ++ [Ofs_close (lit "received/" ++ Opts.filename (getopt_loop argv))])
       ++ closing_events active_chan (Opts.c (getopt_loop argv)),
     Exit 0)
  /\ ofs_written (lit "received/" ++ Opts.filename (getopt_loop argv))
       (trace (main w fuel argv))
     = stored file.
Proof.
  intros Hhandshake Hp Hlen Hfits HC Hmax Hserves Hopen Hfuel.
  pose proof (getopt_filename_no_nul argv) as Hnul.
  pose proof (len_nonneg file) as HL.
  assert (Hrun := request_file_run w active_chan _ Hnul Hfits _ (len file) fuel
                    HC HL Hmax (proj1 Hserves) Hopen Hfuel).
  assert (Hmain : main w fuel argv
                  = (opening_events (getopt_loop argv) ++ handshake ++ []
                       ++ trace (request_file w fuel active_chan
                                   (Opts.buffercapacity (getopt_loop argv))
                                   (Opts.filename (getopt_loop argv)))
                       ++ closing_events active_chan (Opts.c (getopt_loop argv)),
                     Exit 0)).
  { apply main_completes; [exact Hhandshake| |].
    - rewrite (geb_false _ Hp). reflexivity.
    - rewrite (gtb_true _ Hlen), Hrun. reflexivity. }
  split; [rewrite Hmain, Hrun; reflexivity|].
  rewrite Hmain. cbn [trace fst]. rewrite !ofs_written_app.
  replace handshake with (trace (establish w (getopt_loop argv)))
    by (now rewrite Hhandshake).
  rewrite establish_writes_no_file.
  rewrite (transfer_writes_the_file w active_chan _ file _ fuel
             HC Hmax Hnul Hfits Hserves Hopen Hfuel).
  unfold opening_events, closing_events.
  destruct (Opts.c (getopt_loop argv)); cbn [ofs_written app]; now rewrite app_nil_r.
Qed.

Lemma file_transfer_end_to_end_witness :
  ofs_written (lit "received/f.bin")
    (trace (main (common_h := x86_64) (file_server sample_file) 3
              [Opt_c; Opt_m 1024; Opt_f (lit "f.bin")]))
  = stored sample_file.
Proof.
  refine (proj2 (file_transfer_end_to_end (common_h := x86_64) (file_server sample_file) 3
                   [Opt_c; Opt_m 1024; Opt_f (lit "f.bin")]
                   (new_chan (lit "data1_"))
                   [ Cwrite chan (stored (x86_64_MESSAGE_TYPE NEWCHANNEL_MSG));
                     Cread chan 30;
                     Chan_open (new_chan (lit "data1_")) ]
                   sample_file _ _ _ _ _ _ _ _ _)).
  - vm_compute. reflexivity.
  - by_computation.
  - by_computation.
  - by_computation.
  - by_computation.
  - by_computation.
  - split; [reflexivity|]. intros off n. reflexivity.
  - reflexivity.
  - by_computation.
Defined.

(** ** The chunks in closed form *)

Lemma below_chunk_count (C L : Z) (j : nat) :
  0 < C -> 0 <= L -> (Z.of_nat j * C < L <-> (j < chunk_count C L)%nat).
Proof.
  intros HC HL. unfold chunk_count.
  pose proof (Z.div_mod (L + C - 1) C ltac:(lia)) as Hdiv.
  pose proof (Z.mod_pos_bound (L + C - 1) C HC) as Hmod.
  set (q := (L + C - 1) / C) in *. set (r := (L + C - 1) mod C) in *.
  assert (Hq : 0 <= q) by (apply Z.div_pos; lia).
  clearbody q r.
  split; intros H.
  - destruct (Z.lt_ge_cases (Z.of_nat j) q) as [Hlt|Hge]; [lia|].
    assert (q * C <= Z.of_nat j * C) by (apply Z.mul_le_mono_nonneg_r; lia).
    lia.
  - assert ((Z.of_nat j + 1) * C <= q * C) by (apply Z.mul_le_mono_nonneg_r; lia).
    lia.
Qed.

Lemma chunks_from_closed (C L : Z) :
  0 < C -> 0 <= L ->
  forall (n j : nat),
    chunks_from n C L (Z.of_nat j * C)
    = map (nth_chunk C L) (seq j (Nat.min n (chunk_count C L - j))).
Proof.
  intros HC HL. induction n as [|n IH]; intros j; [reflexivity|].
  cbn [chunks_from].
  pose proof (below_chunk_count C L j HC HL) as Hj.
  destruct (Z.ltb_spec (Z.of_nat j * C) L) as [Hlt|Hge].
  - apply Hj in Hlt.
    replace (chunk_count C L - j)%nat with (S (chunk_count C L - S j)) by lia.
    cbn [Nat.min seq map]. f_equal.
    destruct (Z.le_gt_cases (Z.of_nat j * C + C) L) as [Hfull|Hlast].
    + rewrite Z.min_l by lia.
      replace (Z.of_nat j * C + C) with (Z.of_nat (S j) * C) by lia.
      apply IH.
    + rewrite Z.min_r by lia.
      rewrite chunks_from_done by lia.
      replace (chunk_count C L - S j)%nat with 0%nat; [now rewrite Nat.min_0_r|].
      pose proof (below_chunk_count C L (S j) HC HL) as HSj.
      destruct (Nat.lt_ge_cases (S j) (chunk_count C L)) as [Hmore|Hnone]; [|lia].
      apply HSj in Hmore. lia.
  - replace (chunk_count C L - j)%nat with 0%nat; [now rewrite Nat.min_0_r|].
    destruct (Nat.lt_ge_cases j (chunk_count C L)) as [Hmore|Hnone]; [|lia].
    apply Hj in Hmore. lia.
Qed.

Lemma chunk_count_le (C L : Z) : 0 < C -> 0 <= L -> (chunk_count C L <= Z.to_nat L)%nat.
Proof.
  intros HC HL. unfold chunk_count.
  apply Z2Nat.inj_le; [apply Z.div_pos; lia|lia|].
  destruct (Z.eq_dec L 0) as [->|Hpos].
  - rewrite Z.div_small by lia. lia.
  - apply Z.div_le_upper_bound; [lia|].
    assert (0 <= (C - 1) * (L - 1)) by (apply Z.mul_nonneg_nonneg; lia).
    lia.
Qed.

Lemma chunk_plan_closed (C L : Z) :
  0 < C -> 0 <= L -> chunk_plan C L = chunks_in_closed_form C L.
Proof.
  intros HC HL. unfold chunk_plan, chunks_in_closed_form.
  change 0 with (Z.of_nat 0 * C) at 1.
  rewrite chunks_from_closed by assumption.
  rewrite Nat.sub_0_r, Nat.min_r by (now apply chunk_count_le).
  reflexivity.
Qed.

(** X5. The chunk loop of lines 159-183 asks for chunk number k at the
    offset k * capacity, for as many chunks as the length divided by the
    capacity, rounded up; a file no longer than the capacity is fetched
    with one request for the whole of it. *)
Theorem chunk_k_starts_at_k_times_capacity {common_h : CommonH}
    (w : World) (ch : channel) (filename : list byte) (C L : Z) (fuel : nat) :
  0 < C <= INT_MAX -> 0 <= L -> L + C <= INT64_MAX ->
  ~ In NUL filename -> fits filename ->
  reply_filelen w filename = L ->
  ofs_is_open w (lit "received/" ++ filename) = true ->
  L <= Z.of_nat fuel * C ->
  request_file w fuel ch C filename
  = (probe_events ch filename L
       ++ flat_map (chunk_events w ch filename (lit "received/" ++ filename))
            (map (fun k => (Z.of_nat k * C, Z.min C (L - Z.of_nat k * C)))
               (seq 0 (Z.to_nat ((L + C - 1) / C))))
       ++ [Ofs_close (lit "received/" ++ filename)],
     Ret tt)
  /\ (0 < L <= C ->
      request_file w fuel ch C filename
      = (probe_events ch filename L
           ++ chunk_events w ch filename (lit "received/" ++ filename) (0, L)
           ++ [Ofs_close (lit "received/" ++ filename)],
         Ret tt)).
Proof.
  intros HC HL Hmax Hnul Hfits Hlen Hopen Hfuel.
  assert (Hrun := request_file_run w ch filename Hnul Hfits C L fuel
                    HC HL Hmax Hlen Hopen Hfuel).
  rewrite chunk_plan_closed in Hrun by lia.
  split; [exact Hrun|].
  intros Hone. rewrite Hrun. unfold chunks_in_closed_form, chunk_count.
  replace ((L + C - 1) / C) with 1.
  - change (Z.to_nat 1) with 1%nat. cbn [seq map flat_map]. unfold nth_chunk.
    change (Z.of_nat 0 * C) with 0. rewrite Z.sub_0_r, Z.min_r by lia.
    now rewrite app_nil_r.
  - apply Z.div_unique with (r := L - 1); lia.
Qed.

Lemma chunk_k_starts_at_k_times_capacity_witness :
  request_file (common_h := x86_64) (file_server (lit "hello world")) 3 chan 4 (lit "f.bin")
  = (probe_events (common_h := x86_64) chan (lit "f.bin") 11
       ++ flat_map (chunk_events (common_h := x86_64) (file_server (lit "hello world")) chan
                      (lit "f.bin") (lit "received/" ++ lit "f.bin"))
            (map (fun k => (Z.of_nat k * 4, Z.min 4 (11 - Z.of_nat k * 4)))
               (seq 0 (Z.to_nat ((11 + 4 - 1) / 4))))
       ++ [Ofs_close (lit "received/" ++ lit "f.bin")],
     Ret tt).
Proof.
  refine (proj1 (chunk_k_starts_at_k_times_capacity (common_h := x86_64)
                   (file_server (lit "hello world")) chan (lit "f.bin") 4 11 3
                   _ _ _ _ _ _ _ _)).
  - by_computation.
  - by_computation.
  - by_computation.
  - by_computation.
  - by_computation.
  - reflexivity.
  - reflexivity.
  - by_computation.
Defined.

(** ** A capacity that is negative, zero, or smaller than a message *)

Lemma new_char_throws (n : Z) : n < 0 -> new_char n = stop Throw.
Proof. intros Hn. unfold new_char. destruct (Z.ltb_spec n 0); [reflexivity|lia]. Qed.

Lemma memcpy_overflows (dst : buffer) (src : list byte) (n : Z) :
  len dst < n -> memcpy dst src n = stop Undefined.
Proof.
  intros Hn. unfold memcpy.
  destruct (Z.leb_spec n (len dst)); [lia|]. now rewrite andb_false_r.
Qed.

Lemma string_of_buffer_runs_off (l : list byte) (k : nat) :
  ~ In NUL l -> string_of_buffer (stored l ++ repeat None k) = stop Undefined.
Proof.
  induction l as [|b l IH]; intros Hl; simpl.
  - now destruct k.
  - destruct (Byte.eqb b NUL) eqn:E.
    + apply Byte.byte_dec_bl in E. exfalso. apply Hl. now left.
    + rewrite IH by (intros Hin; apply Hl; now right). reflexivity.
Qed.

Lemma zero_below_1000 : (0 <? 1000)%float = true.
Proof. reflexivity. Qed.

Section CapacityEdges.

Context {common_h : CommonH}.
Variable w : World.

Lemma request_data_point_throws (ch : channel) (C p : Z) (t : float) (e : Z) :
  C < 0 -> request_data_point w ch C p t e = ([], Throw).
Proof. intros HC. unfold request_data_point. now rewrite new_char_throws. Qed.

Lemma request_data_point_overflows (ch : channel) (C p : Z) (t : float) (e : Z) :
  0 <= C < sizeof_datamsg -> request_data_point w ch C p t e = ([], Undefined).
Proof.
  intros HC. unfold request_data_point, ask_datamsg.
  rewrite new_char_run, bind_ret by lia.
  rewrite memcpy_overflows by (rewrite len_repeat; lia). reflexivity.
Qed.

Lemma request_1000_points_throws (fuel : nat) (ch : channel) (C p : Z) :
  C < 0 ->
  ofs_is_open w (lit "received/x" ++ to_string p ++ lit ".csv") = true ->
  (1 <= fuel)%nat ->
  request_1000_points w fuel ch C p
  = ([Ofs_open (lit "received/x" ++ to_string p ++ lit ".csv") true], Throw).
Proof.
  intros HC Hopen Hfuel. destruct fuel as [|fuel]; [lia|].
  unfold request_1000_points. cbv zeta. rewrite Hopen. run_emit. cbn [negb]. run_ret.
  cbn [first_1000_loop]. rewrite zero_below_1000.
  rewrite new_char_throws by exact HC. reflexivity.
Qed.

Lemma request_1000_points_overflows (fuel : nat) (ch : channel) (C p : Z) :
  0 <= C < sizeof_datamsg ->
  ofs_is_open w (lit "received/x" ++ to_string p ++ lit ".csv") = true ->
  (1 <= fuel)%nat ->
  request_1000_points w fuel ch C p
  = ([Ofs_open (lit "received/x" ++ to_string p ++ lit ".csv") true], Undefined).
Proof.
  intros HC Hopen Hfuel. destruct fuel as [|fuel]; [lia|].
  unfold request_1000_points. cbv zeta. rewrite Hopen. run_emit. cbn [negb]. run_ret.
  cbn [first_1000_loop]. rewrite zero_below_1000.
  rewrite new_char_run, !bind_ret by lia. unfold ask_datamsg.
  rewrite memcpy_overflows by (rewrite len_repeat; lia). reflexivity.
Qed.

Lemma request_file_throws (fuel : nat) (ch : channel) (C : Z) (filename : list byte) :
  - 2 ^ 31 <= C < 0 ->
  ~ In NUL filename -> fits filename ->
  0 < reply_filelen w filename ->
  ofs_is_open w (lit "received/" ++ filename) = true ->
  (1 <= fuel)%nat ->
  request_file w fuel ch C filename
  = (probe_events ch filename (reply_filelen w filename)
       ++ [Cwrite ch (file_request (Filemsg 0 C) filename)],
     Throw).
Proof.
  intros HC Hnul Hfits HL Hopen Hfuel. destruct fuel as [|fuel]; [lia|].
  unfold request_file.
  rewrite send_filemsg_run by assumption. run_emit.
  run (cread_value_run ch sizeof_int64 (reply_filelen w filename)).
  rewrite Hopen. do 2 run_emit. cbn [negb]. run_ret.
  cbn [chunk_loop].
  destruct (Z.ltb_spec 0 (reply_filelen w filename)) as [_|Hge]; [|lia].
  change (0 + C) with C.
  rewrite to_int64_in_range by (unfold INT64_MAX; lia).
  destruct (Z.gtb_spec C (reply_filelen w filename)) as [Hgt|_]; [lia|].
  rewrite send_filemsg_run by assumption. run_emit.
  rewrite new_char_throws by lia. reflexivity.
Qed.

Lemma chunk_loop_stalls (fuel : nat) (ch : channel) (filename outputfile : list byte) (L : Z) :
  ~ In NUL filename -> fits filename -> 0 < L ->
  chunk_loop w fuel ch 0 filename outputfile L 0
  = (List.concat (repeat (chunk_events w ch filename outputfile (0, 0)) fuel), OutOfFuel).
Proof.
  intros Hnul Hfits HL. induction fuel as [|fuel IH]; cbn [chunk_loop];
    destruct (Z.ltb_spec 0 L) as [_|Hge]; try lia; [reflexivity|].
  change (to_int64 (0 + 0)) with 0.
  destruct (Z.gtb_spec 0 L) as [Hgt|_]; [lia|].
  rewrite send_filemsg_run by assumption. run_emit.
  rewrite new_char_run, bind_ret by lia.
  run (cread_run ch 0 (reply_chunk w filename 0 0) ltac:(lia)).
  run_emit. rewrite IH. reflexivity.
Qed.

Lemma new_channel_request_throws (C : Z) : C < 0 -> new_channel_request w C = ([], Throw).
Proof. intros HC. unfold new_channel_request. now rewrite new_char_throws. Qed.

Lemma new_channel_request_overflows (C : Z) :
  0 <= C < sizeof_MESSAGE_TYPE -> new_channel_request w C = ([], Undefined).
Proof.
  intros HC. unfold new_channel_request.
  rewrite new_char_run, bind_ret by lia.
  rewrite memcpy_overflows by (rewrite len_repeat; lia). reflexivity.
Qed.

Lemma new_channel_request_runs_off (C : Z) :
  sizeof_MESSAGE_TYPE <= C ->
  ~ In NUL (take 30 (reply_newchannel w)) ->
  new_channel_request w C
  = ([Cwrite chan (stored (repr_MESSAGE_TYPE NEWCHANNEL_MSG)); Cread chan 30], Undefined).
Proof.
  intros HC Hnul. pose proof sizeof_MESSAGE_TYPE_nonneg as Hsz.
  unfold new_channel_request.
  rewrite new_char_run, bind_ret by lia.
  rewrite memcpy_run, bind_ret;
    [| apply repr_MESSAGE_TYPE_size | rewrite len_repeat; lia].
  rewrite cwrite_front by (symmetry; apply repr_MESSAGE_TYPE_size).
  run_emit.
  change (repeat (@None byte) 30) with (repeat (@None byte) (Z.to_nat 30)).
  run (cread_run chan 30 (reply_newchannel w) ltac:(lia)).
  rewrite received_30, string_of_buffer_runs_off by exact Hnul.
  reflexivity.
Qed.

End CapacityEdges.

(** X6. With a negative capacity every [new char[buffercapacity]] throws:
    the run dies before anything is written to a channel when a new
    channel or data points are asked for (the file of the 1000 points
    has been created by then), and a file transfer dies after the probe
    and after a first chunk request that carries the negative length. *)
Theorem negative_capacity_throws {common_h : CommonH}
    (w : World) (fuel : nat) (argv : list option_arg) :
  - 2 ^ 31 <= Opts.buffercapacity (getopt_loop argv) < 0 ->
  (1 <= fuel)%nat ->
  (Opts.c (getopt_loop argv) = true ->
   main w fuel argv = (opening_events (getopt_loop argv), Throw))
  /\ (Opts.c (getopt_loop argv) = false ->
      0 <= Opts.p (getopt_loop argv) ->
      (0 <=? Opts.t (getopt_loop argv))%float = true ->
      main w fuel argv = (opening_events (getopt_loop argv), Throw))
  /\ (Opts.c (getopt_loop argv) = false ->
      0 <= Opts.p (getopt_loop argv) ->
      (0 <=? Opts.t (getopt_loop argv))%float = false ->
      ofs_is_open w (lit "received/x" ++ to_string (Opts.p (getopt_loop argv)) ++ lit ".csv")
      = true ->
      main w fuel argv
      = (opening_events (getopt_loop argv)
           ++ [Ofs_open
                 (lit "received/x" ++ to_string (Opts.p (getopt_loop argv)) ++ lit ".csv")
                 true],
         Throw))
  /\ (Opts.c (getopt_loop argv) = false ->
      Opts.p (getopt_loop argv) < 0 ->
      0 < len (Opts.filename (getopt_loop argv)) ->
      fits (Opts.filename (getopt_loop argv)) ->
      0 < reply_filelen w (Opts.filename (getopt_loop argv)) ->
      ofs_is_open w (lit "received/" ++ Opts.filename (getopt_loop argv)) = true ->
      main w fuel argv
      = (opening_events (getopt_loop argv)
           ++ probe_events chan (Opts.filename (getopt_loop argv))
                (reply_filelen w (Opts.filename (getopt_loop argv)))
           ++ [Cwrite chan
                 (file_request (Filemsg 0 (Opts.buffercapacity (getopt_loop argv)))
                    (Opts.filename (getopt_loop argv)))],
         Throw)).
Proof.
  intros HC Hfuel. repeat split.
  - intros Hc. unfold main. cbv zeta. rewrite Hc. do 2 run_emit.
    rewrite new_channel_request_throws by lia. reflexivity.
  - intros Hc Hp Ht. unfold main. cbv zeta. rewrite Hc. do 2 run_emit. run_ret.
    rewrite (geb_true _ Hp), Ht. cbn [andb].
    rewrite request_data_point_throws by lia. reflexivity.
  - intros Hc Hp Ht Hopen. unfold main. cbv zeta. rewrite Hc. do 2 run_emit. run_ret.
    rewrite (geb_true _ Hp), Ht. cbn [andb].
    rewrite request_1000_points_throws by (assumption || lia). reflexivity.
  - intros Hc Hp Hlen Hfits HL Hopen. unfold main. cbv zeta. rewrite Hc.
    do 2 run_emit. run_ret.
    rewrite (geb_false _ Hp). cbn [andb]. run_ret.
    rewrite (gtb_true _ Hlen).
    rewrite (request_file_throws w fuel chan _ _ HC (getopt_filename_no_nul argv)
               Hfits HL Hopen Hfuel).
    reflexivity.
Qed.

Lemma negative_capacity_throws_witness :
  main (common_h := x86_64) (file_server sample_file) 1 [Opt_m (-8); Opt_f (lit "f.bin")]
  = (opening_events (common_h := x86_64)
       (getopt_loop (common_h := x86_64) [Opt_m (-8); Opt_f (lit "f.bin")])
       ++ probe_events (common_h := x86_64) chan (lit "f.bin") 2500
       ++ [Cwrite chan (stored (x86_64_filemsg (Filemsg 0 (-8)) ++ c_str (lit "f.bin")))],
     Throw).
Proof.
  refine (proj2 (proj2 (proj2
    (negative_capacity_throws (common_h := x86_64) (file_server sample_file) 1
       [Opt_m (-8); Opt_f (lit "f.bin")] _ _))) _ _ _ _ _ _).
  - by_computation.
  - apply Nat.le_refl.
  - reflexivity.
  - by_computation.
  - by_computation.
  - by_computation.
  - by_computation.
  - reflexivity.
Defined.

(** X7. With the capacity 0 and a file that is not empty the chunk loop
    never ends: turn after turn it asks for no byte at offset 0, reads
    nothing and writes nothing, and whatever the fuel the run is cut
    off inside the loop. *)
Theorem zero_capacity_never_ends {common_h : CommonH}
    (w : World) (ch : channel) (filename : list byte) (fuel : nat) :
  ~ In NUL filename -> fits filename ->
  0 < reply_filelen w filename ->
  ofs_is_open w (lit "received/" ++ filename) = true ->
  request_file w fuel ch 0 filename
  = (probe_events ch filename (reply_filelen w filename)
       ++ List.concat
            (repeat (chunk_events w ch filename (lit "received/" ++ filename) (0, 0)) fuel),
     OutOfFuel)
  /\ chunk_events w ch filename (lit "received/" ++ filename) (0, 0)
     = [ Cwrite ch (file_request (Filemsg 0 0) filename);
         Cread ch 0;
         Ofs_write (lit "received/" ++ filename) [] ].
Proof.
  intros Hnul Hfits HL Hopen. split; [|reflexivity].
  unfold request_file.
  rewrite send_filemsg_run by assumption. run_emit.
  run (cread_value_run ch sizeof_int64 (reply_filelen w filename)).
  rewrite Hopen. do 2 run_emit. cbn [negb]. run_ret.
  rewrite chunk_loop_stalls by assumption. reflexivity.
Qed.

Lemma zero_capacity_never_ends_witness :
  result (request_file (common_h := x86_64) (file_server sample_file) 50 chan 0 (lit "f.bin"))
  = OutOfFuel.
Proof.
  refine (f_equal result
            (proj1 (zero_capacity_never_ends (common_h := x86_64) (file_server sample_file)
                      chan (lit "f.bin") 50 _ _ _ _))).
  - by_computation.
  - by_computation.
  - by_computation.
  - reflexivity.
Defined.

(** X8. With a capacity that is not negative but smaller than
    sizeof(datamsg), the [memcpy] of a data message overruns the buffer
    of capacity bytes: the behaviour is undefined before the request is
    written, for the single data point and in the first turn of the
    loop over the 1000 points. *)
Theorem capacity_below_datamsg_is_undefined {common_h : CommonH}
    (w : World) (fuel : nat) (argv : list option_arg)
    (active_chan : channel) (handshake : list event) :
  establish w (getopt_loop argv) = (handshake, Ret active_chan) ->
  0 <= Opts.buffercapacity (getopt_loop argv) < sizeof_datamsg ->
  0 <= Opts.p (getopt_loop argv) ->
  (1 <= fuel)%nat ->
  ((0 <=? Opts.t (getopt_loop argv))%float = true ->
   main w fuel argv = (opening_events (getopt_loop argv) ++ handshake, Undefined))
  /\ ((0 <=? Opts.t (getopt_loop argv))%float = false ->
      ofs_is_open w (lit "received/x" ++ to_string (Opts.p (getopt_loop argv)) ++ lit ".csv")
      = true ->
      main w fuel argv
      = (opening_events (getopt_loop argv) ++ handshake
           ++ [Ofs_open
                 (lit "received/x" ++ to_string (Opts.p (getopt_loop argv)) ++ lit ".csv")
                 true],
         Undefined)).
Proof.
  intros Hhandshake HC Hp Hfuel. split.
  - intros Ht. unfold main. cbv zeta. do 2 run_emit. run Hhandshake.
    rewrite (geb_true _ Hp), Ht. cbn [andb].
    rewrite request_data_point_overflows by exact HC.
    cbn [bind opening_events app]. now rewrite app_nil_r.
  - intros Ht Hopen. unfold main. cbv zeta. do 2 run_emit. run Hhandshake.
    rewrite (geb_true _ Hp), Ht. cbn [andb].
    rewrite request_1000_points_overflows by assumption.
    reflexivity.
Qed.

Lemma capacity_below_datamsg_is_undefined_witness :
  main (common_h := x86_64) (file_server sample_file) 1
    [Opt_p 3; Opt_t 0.004%float; Opt_m 16]
  = ([Fork_exec [lit "./server"; lit "-m"; lit "16"]; Chan_open chan], Undefined).
Proof.
  refine (proj1 (capacity_below_datamsg_is_undefined (common_h := x86_64)
                   (file_server sample_file) 1 [Opt_p 3; Opt_t 0.004%float; Opt_m 16]
                   chan [] _ _ _ _) _).
  - reflexivity.
  - by_computation.
  - by_computation.
  - apply Nat.le_refl.
  - reflexivity.
Defined.

(** X9. The edges of the request for a new channel: with a capacity
    below sizeof(MESSAGE_TYPE) the tag overruns the buffer before
    anything is written, and when the first 30 bytes received carry no
    NUL the construction of the name runs off the array after the read;
    in both cases no new channel is opened and nothing more is written. *)
Theorem new_channel_edges {common_h : CommonH}
    (w : World) (fuel : nat) (argv : list option_arg) :
  Opts.c (getopt_loop argv) = true ->
  (0 <= Opts.buffercapacity (getopt_loop argv) < sizeof_MESSAGE_TYPE ->
   main w fuel argv = (opening_events (getopt_loop argv), Undefined))
  /\ (sizeof_MESSAGE_TYPE <= Opts.buffercapacity (getopt_loop argv) ->
      ~ In NUL (take 30 (reply_newchannel w)) ->
      main w fuel argv
      = (opening_events (getopt_loop argv)
           ++ [Cwrite chan (stored (repr_MESSAGE_TYPE NEWCHANNEL_MSG)); Cread chan 30],
         Undefined)).
Proof.
  intros Hc. split.
  - intros HC. unfold main. cbv zeta. rewrite Hc. do 2 run_emit.
    rewrite new_channel_request_overflows by exact HC. reflexivity.
  - intros HC Hnul. unfold main. cbv zeta. rewrite Hc. do 2 run_emit.
    rewrite new_channel_request_runs_off by assumption. reflexivity.
Qed.

Lemma new_channel_edges_witness :
  main (common_h := x86_64) (file_server sample_file) 0 [Opt_c; Opt_m 2]
  = ([Fork_exec [lit "./server"; lit "-m"; lit "2"]; Chan_open chan], Undefined).
Proof.
  refine (proj1 (new_channel_edges (common_h := x86_64) (file_server sample_file) 0
                   [Opt_c; Opt_m 2] _) _).
  - reflexivity.
  - by_computation.
Defined.

(** ** Computations that do not return from main *)

Lemma never_bind {A B : Type} (m : M A) (k : A -> M B) :
  never_exits m -> (forall a, never_exits (k a)) -> never_exits (bind m k).
Proof.
  intros Hm Hk s. rewrite result_bind.
  destruct (result m) as [a|s'| | | ] eqn:R; try discriminate.
  - apply Hk.
  - now destruct (Hm s').
Qed.

Lemma never_if {A : Type} (c : bool) (m m' : M A) :
  never_exits m -> never_exits m' -> never_exits (if c then m else m').
Proof. now destruct c. Qed.

Lemma never_new_char (n : Z) : never_exits (new_char n).
Proof. intros s. unfold new_char. now destruct (n <? 0). Qed.

Lemma never_memcpy (dst : buffer) (src : list byte) (n : Z) : never_exits (memcpy dst src n).
Proof.
  intros s. unfold memcpy.
  now destruct ((0 <=? n) && (n <=? len src) && (n <=? len dst)).
Qed.

Lemma never_strcpy (dst : buffer) (off : Z) (src : list byte) :
  never_exits (strcpy dst off src).
Proof.
  intros s. unfold strcpy.
  now destruct ((0 <=? off) && (off + len (until_nul src ++ [NUL]) <=? len dst)).
Qed.

Lemma never_string_of_buffer (buf : buffer) : never_exits (string_of_buffer buf).
Proof.
  induction buf as [|[b|] buf IH]; simpl; try (intros s; discriminate).
  destruct (Byte.eqb b NUL); [intros s; discriminate|].
  apply never_bind; [exact IH|]. intros s' s. discriminate.
Qed.

Lemma never_cwrite (ch : channel) (buf : buffer) (n : Z) : never_exits (cwrite ch buf n).
Proof. intros s. unfold cwrite. now destruct ((0 <=? n) && (n <=? len buf)). Qed.

Lemma never_cread (ch : channel) (buf : buffer) (n : Z) (sent : list byte) :
  never_exits (cread ch buf n sent).
Proof.
  unfold cread. apply never_bind; [intros s; discriminate|intros _].
  intros s. now destruct ((0 <=? n) && (n <=? len buf)).
Qed.

Ltac never_walk :=
  repeat match goal with
    | |- never_exits (bind _ _) => apply never_bind; [|intros ?]
    | |- never_exits (if _ then _ else _) => apply never_if
    | |- never_exits (new_char _) => apply never_new_char
    | |- never_exits (memcpy _ _ _) => apply never_memcpy
    | |- never_exits (strcpy _ _ _) => apply never_strcpy
    | |- never_exits (string_of_buffer _) => apply never_string_of_buffer
    | |- never_exits (cread _ _ _ _) => apply never_cread
    | |- never_exits (cwrite _ _ _) => apply never_cwrite
    | |- never_exits (cread_value _ _ _) => intros ?; discriminate
    | |- never_exits (ret _) => intros ?; discriminate
    | |- never_exits (emit _) => intros ?; discriminate
    | |- never_exits (stop _) => intros ?; discriminate
    end.

Section NeverExits.

Context {common_h : CommonH}.
Variable w : World.

Lemma never_send_filemsg (ch : channel) (fm : filemsg) (filename : list byte) :
  never_exits (send_filemsg ch fm filename).
Proof. unfold send_filemsg. never_walk. Qed.

Lemma never_ask_datamsg (ch : channel) (buf : buffer) (x : datamsg) :
  never_exits (ask_datamsg w ch buf x).
Proof. unfold ask_datamsg. never_walk. Qed.

Lemma never_request_data_point (ch : channel) (C p : Z) (t : float) (e : Z) :
  never_exits (request_data_point w ch C p t e).
Proof. unfold request_data_point, ask_datamsg. never_walk. Qed.

Lemma never_new_channel_request (C : Z) : never_exits (new_channel_request w C).
Proof. unfold new_channel_request. never_walk. Qed.



Lemma never_closing_the_channel (ch : channel) (c : bool) :
  never_exits (closing_the_channel ch c).
Proof. unfold closing_the_channel. never_walk. Qed.

End NeverExits.

(** ** The exit status and the last events of a run *)





Section Endings2.

Context {common_h : CommonH}.
Variable w : World.










End Endings2.


(** ** The discipline of the output files *)

Ltac no_file_leaf := first [exact I | intros; exact I].

Lemma ofs_state_app (opened : option (list byte)) (tr tr' : list event) :
  ofs_state opened (tr ++ tr')
  = match ofs_state opened tr with
    | Some opened' => ofs_state opened' tr'
    | None => None
    end.
Proof.
  revert opened. induction tr as [|ev tr IH]; intros opened; [reflexivity|].
  destruct ev; simpl; try apply IH.
  - destruct opened; [reflexivity|apply IH].
  - destruct opened as [path'|]; [|reflexivity].
    destruct (path_eqb path path'); [apply IH|reflexivity].
  - destruct opened as [path'|]; [|reflexivity].
    destruct (path_eqb path path'); [apply IH|reflexivity].
  - destruct opened as [path'|]; [|reflexivity].
    destruct (path_eqb path path'); [apply IH|reflexivity].
Qed.

Lemma ofs_state_no_file (opened : option (list byte)) (tr : list event) :
  Forall no_file_event tr -> ofs_state opened tr = Some opened.
Proof.
  induction 1 as [|ev tr Hev _ IH]; [reflexivity|].
  destruct ev; simpl in *; try exact IH; destruct Hev.
Qed.

Lemma keeps_plain {A : Type} (opened : option (list byte)) (m : M A) :
  never_exits m -> always no_file_event m -> keeps_files opened m opened.
Proof.
  intros Hnever Hplain. unfold keeps_files.
  rewrite (ofs_state_no_file opened (trace m) Hplain).
  destruct (result m) as [a|s| | | ] eqn:R; try reflexivity; try discriminate.
  now destruct (Hnever s).
Qed.

Lemma keeps_bind {A B : Type} (opened opened1 opened2 : option (list byte))
    (m : M A) (k : A -> M B) :
  keeps_files opened m opened1 -> (forall a, keeps_files opened1 (k a) opened2) ->
  keeps_files opened (bind m k) opened2.
Proof.
  unfold keeps_files. intros Hm Hk.
  rewrite result_bind, trace_bind, ofs_state_app.
  destruct (result m) as [a|s| | | ].
  - rewrite Hm. apply Hk.
  - now rewrite Hm.
  - destruct (ofs_state opened (trace m)); [discriminate|congruence].
  - destruct (ofs_state opened (trace m)); [discriminate|congruence].
  - destruct (ofs_state opened (trace m)); [discriminate|congruence].
Qed.

Lemma keeps_open (path : list byte) (ok : bool) :
  keeps_files None (emit (Ofs_open path ok)) (if ok then Some path else None).
Proof. reflexivity. Qed.

Lemma keeps_row (path : list byte) (time val1 val2 : float) :
  keeps_files (Some path) (emit (Ofs_row path time val1 val2)) (Some path).
Proof. unfold keeps_files. simpl. now rewrite path_eqb_refl. Qed.

Lemma keeps_write (path : list byte) (data : list cell) :
  keeps_files (Some path) (emit (Ofs_write path data)) (Some path).
Proof. unfold keeps_files. simpl. now rewrite path_eqb_refl. Qed.

Lemma keeps_close (path : list byte) :
  keeps_files (Some path) (emit (Ofs_close path)) None.
Proof. unfold keeps_files. simpl. now rewrite path_eqb_refl. Qed.

Lemma keeps_or_returns (path : list byte) (ok : bool) :
  keeps_files (if ok then Some path else None)
    (if negb ok
     then emit (Cout (Say_could_not_open path)) ;; return_ (A := unit) 1
     else ret tt)
    (Some path).
Proof. now destruct ok. Qed.

Section Files.

Context {common_h : CommonH}.
Variable w : World.

Lemma plain_send_filemsg (ch : channel) (fm : filemsg) (filename : list byte) :
  always no_file_event (send_filemsg ch fm filename).
Proof. unfold send_filemsg. walk; no_file_leaf. Qed.

Lemma plain_ask_datamsg (ch : channel) (buf : buffer) (x : datamsg) :
  always no_file_event (ask_datamsg w ch buf x).
Proof. unfold ask_datamsg. walk; no_file_leaf. Qed.

Lemma keeps_first_1000_loop (fuel : nat) (ch : channel) (C p : Z) (outfile : list byte) :
  forall i,
    keeps_files (Some outfile) (first_1000_loop w fuel ch C p outfile i) (Some outfile).
Proof.
  induction fuel as [|fuel IH]; intros i; cbn [first_1000_loop];
    destruct (i <? 1000)%float; try (unfold keeps_files; simpl; congruence).
  apply keeps_bind with (opened1 := Some outfile);
    [apply keeps_plain; [apply never_new_char|walk]|intros buf_ecg1].
  apply keeps_bind with (opened1 := Some outfile);
    [apply keeps_plain; [apply never_new_char|walk]|intros buf_ecg2].
  apply keeps_bind with (opened1 := Some outfile);
    [apply keeps_plain; [apply never_ask_datamsg|apply plain_ask_datamsg]|intros val1].
  apply keeps_bind with (opened1 := Some outfile);
    [apply keeps_plain; [apply never_ask_datamsg|apply plain_ask_datamsg]|intros val2].
  apply keeps_bind with (opened1 := Some outfile); [apply keeps_row|intros _].
  apply IH.
Qed.

Lemma keeps_chunk_loop (fuel : nat) (ch : channel) (C : Z)
    (filename outputfile : list byte) (filelen : Z) :
  forall off,
    keeps_files (Some outputfile)
      (chunk_loop w fuel ch C filename outputfile filelen off) (Some outputfile).
Proof.
  induction fuel as [|fuel IH]; intros off; cbn [chunk_loop];
    destruct (off <? filelen); try (unfold keeps_files; simpl; congruence).
  apply keeps_bind with (opened1 := Some outputfile);
    [apply keeps_plain; [apply never_send_filemsg|apply plain_send_filemsg]|intros _].
  apply keeps_bind with (opened1 := Some outputfile);
    [apply keeps_plain; [apply never_new_char|walk]|intros buf4].
  apply keeps_bind with (opened1 := Some outputfile);
    [apply keeps_plain; [apply never_cread|walk; no_file_leaf]|intros buf4'].
  apply keeps_bind with (opened1 := Some outputfile); [apply keeps_write|intros _].
  apply IH.
Qed.

Lemma keeps_request_1000_points (fuel : nat) (ch : channel) (C p : Z) :
  keeps_files None (request_1000_points w fuel ch C p) None.
Proof.
  unfold request_1000_points. cbv zeta.
  eapply keeps_bind; [apply keeps_open|intros _].
  eapply keeps_bind; [apply keeps_or_returns|intros _].
  eapply keeps_bind; [apply keeps_first_1000_loop|intros _].
  apply keeps_close.
Qed.

Lemma keeps_request_file (fuel : nat) (ch : channel) (C : Z) (filename : list byte) :
  keeps_files None (request_file w fuel ch C filename) None.
Proof.
  unfold request_file. cbv zeta.
  apply keeps_bind with (opened1 := None);
    [apply keeps_plain; [apply never_send_filemsg|apply plain_send_filemsg]|intros _].
  apply keeps_bind with (opened1 := None);
    [apply keeps_plain; [never_walk|walk; no_file_leaf]|intros filelen].
  apply keeps_bind with (opened1 := None);
    [apply keeps_plain; [never_walk|walk; no_file_leaf]|intros _].
  eapply keeps_bind; [apply keeps_open|intros _].
  eapply keeps_bind; [apply keeps_or_returns|intros _].
  eapply keeps_bind; [apply keeps_chunk_loop|intros _].
  apply keeps_close.
Qed.

Lemma keeps_main (fuel : nat) (argv : list option_arg) :
  keeps_files None (main w fuel argv) None.
Proof.
  unfold main. cbv zeta.
  apply keeps_bind with (opened1 := None); [reflexivity|intros _].
  apply keeps_bind with (opened1 := None); [reflexivity|intros _].
  apply keeps_bind with (opened1 := None); [|intros active_chan].
  { destruct (Opts.c (getopt_loop argv)); [|reflexivity].
    apply keeps_plain; [apply never_new_channel_request|].
    unfold new_channel_request. walk; no_file_leaf. }
  apply keeps_bind with (opened1 := None); [|intros _].
  { destruct ((Opts.p (getopt_loop argv) >=? 0) && (0 <=? Opts.t (getopt_loop argv))%float).
    - apply keeps_plain; [apply never_request_data_point|].
      unfold request_data_point, ask_datamsg. walk; no_file_leaf.
    - destruct (Opts.p (getopt_loop argv) >=? 0);
        [apply keeps_request_1000_points|reflexivity]. }
  apply keeps_bind with (opened1 := None); [|intros _].
  { destruct (len (Opts.filename (getopt_loop argv)) >? 0);
      [apply keeps_request_file|reflexivity]. }
  apply keeps_bind with (opened1 := None); [|intros _].
  { apply keeps_plain; [apply never_closing_the_channel|].
    unfold closing_the_channel. walk; no_file_leaf. }
  reflexivity.
Qed.

End Files.

(** X11. In every run the output files are used in order: a file is
    opened only when none is open, every row and every block of bytes
    goes to the file that is open, the file that is closed is the one
    that is open, and whenever [main] returns, with 0 or with 1, no
    file is left open. *)
Theorem output_files_are_used_in_order {common_h : CommonH}
    (w : World) (fuel : nat) (argv : list option_arg) :
  ofs_state None (trace (main w fuel argv)) <> None
  /\ (forall s, exit_status (main w fuel argv) = Some s ->
        ofs_state None (trace (main w fuel argv)) = Some None)
  /\ (forall path data, ofs_state None [Ofs_write path data] = None)
  /\ (forall path path', ofs_state (Some path) [Ofs_open path' true] = None).
Proof.
  pose proof (keeps_main w fuel argv) as H. unfold keeps_files, exit_status in *.
  split; [|split; [|split; reflexivity]].
  - destruct (result (main w fuel argv)); congruence.
  - intros s. destruct (result (main w fuel argv)); try discriminate. intros _. exact H.
Qed.

Section OptionDefaults.

Context {common_h : CommonH}.

Lemma fold_switch_e (argv : list option_arg) :
  (forall v, ~ In (Opt_e v) argv) ->
  forall o, Opts.e (fold_left switch_opt argv o) = Opts.e o.
Proof.
  induction argv as [|opt argv IH]; intros He o; [reflexivity|].
  simpl. rewrite IH by (intros v Hv; apply (He v); now right).
  destruct opt; try reflexivity.
  exfalso. apply (He v). now left.
Qed.

End OptionDefaults.

(** X12. With -p and a -t that is not negative the client asks for that
    one data point only, on the active channel, with the ecg of -e, or
    ecg 1 when -e is not given; the file of the 1000 points is not
    opened; then it writes QUIT and exits with status 0. *)
Theorem single_data_point_run {common_h : CommonH}
    (w : World) (fuel : nat) (argv : list option_arg)
    (active_chan : channel) (handshake : list event) :
  establish w (getopt_loop argv) = (handshake, Ret active_chan) ->
  0 <= Opts.p (getopt_loop argv) ->
  (0 <=? Opts.t (getopt_loop argv))%float = true ->
  len (Opts.filename (getopt_loop argv)) = 0 ->
  sizeof_datamsg <= Opts.buffercapacity (getopt_loop argv) ->
  main w fuel argv
  = (opening_events (getopt_loop argv) ++ handshake
       ++ [ Cwrite active_chan
              (stored (repr_datamsg
                         (Datamsg (Opts.p (getopt_loop argv)) (Opts.t (getopt_loop argv))
                            (Opts.e (getopt_loop argv)))));
            Cread active_chan 8;
            Cout (Say_value (Opts.p (getopt_loop argv)) (Opts.t (getopt_loop argv))
                    (Opts.e (getopt_loop argv))
                    (reply_datapoint w
                       (Datamsg (Opts.p (getopt_loop argv)) (Opts.t (getopt_loop argv))
                          (Opts.e (getopt_loop argv))))) ]
       ++ [] ++ closing_events active_chan (Opts.c (getopt_loop argv)),
     Exit 0)
  /\ ((forall v, ~ In (Opt_e v) argv) -> Opts.e (getopt_loop argv) = 1).
Proof.
  intros Hhandshake Hp Ht Hfile HC. split.
  - apply main_completes; [exact Hhandshake| |].
    + rewrite (geb_true _ Hp), Ht. cbn [andb].
      now apply request_data_point_run.
    + rewrite Hfile. reflexivity.
  - intros He. unfold getopt_loop. now rewrite fold_switch_e.
Qed.

Lemma single_data_point_run_witness :
  main (common_h := x86_64) (file_server sample_file) 0
    [Opt_c; Opt_p 3; Opt_t 0.004%float]
  = ([ Fork_exec [lit "./server"; lit "-m"; lit "256"];
       Chan_open chan;
       Cwrite chan (stored (x86_64_MESSAGE_TYPE NEWCHANNEL_MSG));
       Cread chan 30;
       Chan_open (new_chan (lit "data1_"));
       Cwrite (new_chan (lit "data1_")) (stored (x86_64_datamsg (Datamsg 3 0.004%float 1)));
       Cread (new_chan (lit "data1_")) 8;
       Cout (Say_value 3 0.004%float 1 0%float);
       Cout (Say_closing (lit "data1_"));
       Cwrite (new_chan (lit "data1_")) (stored (x86_64_MESSAGE_TYPE QUIT_MSG));
       Chan_delete (new_chan (lit "data1_"));
       Chan_destroy chan ],
     Exit 0).
Proof.
  refine (proj1 (single_data_point_run (common_h := x86_64) (file_server sample_file) 0
                   [Opt_c; Opt_p 3; Opt_t 0.004%float]
                   (new_chan (lit "data1_"))
                   [ Cwrite chan (stored (x86_64_MESSAGE_TYPE NEWCHANNEL_MSG));
                     Cread chan 30;
                     Chan_open (new_chan (lit "data1_")) ] _ _ _ _ _)).
  - vm_compute. reflexivity.
  - by_computation.
  - reflexivity.
  - reflexivity.
  - by_computation.
Defined.

(** ** The length of what is written *)

Lemma len_concat_received (w : World) (filename : list byte) (plan : list (Z * Z)) :
  Forall (fun r => 1 <= snd r) plan ->
  len (List.concat
         (map (fun r => received (snd r) (reply_chunk w filename (fst r) (snd r))) plan))
  = total_length plan.
Proof.
  induction 1 as [|r plan Hr _ IH]; [reflexivity|].
  cbn [map List.concat total_length fold_right].
  rewrite len_app, len_received by lia. fold (total_length plan). now rewrite IH.
Qed.

(** X13. Whatever the server sends for the chunks, too few bytes
    included, the client writes to the output file exactly as many
    bytes as the length it was told by the probe: each chunk is written
    with the length that was asked for, not with the length that
    arrived. *)
Theorem output_has_the_announced_length {common_h : CommonH}
    (w : World) (ch : channel) (filename : list byte) (C L : Z) (fuel : nat) :
  0 < C <= INT_MAX -> 0 <= L -> L + C <= INT64_MAX ->
  ~ In NUL filename -> fits filename ->
  reply_filelen w filename = L ->
  ofs_is_open w (lit "received/" ++ filename) = true ->
  L <= Z.of_nat fuel * C ->
  len (ofs_written (lit "received/" ++ filename)
         (trace (request_file w fuel ch C filename))) = L.
Proof.
  intros HC HL Hmax Hnul Hfits Hlen Hopen Hfuel.
  assert (Htiles : tiles C L 0 (chunk_plan C L)) by (apply chunk_plan_tiles; lia).
  rewrite (request_file_run w ch filename Hnul Hfits C L fuel HC HL Hmax Hlen Hopen Hfuel).
  cbn [trace fst].
  rewrite !ofs_written_app, ofs_written_chunks.
  cbn [probe_events ofs_written app]. rewrite app_nil_r.
  rewrite len_concat_received.
  - pose proof (tiles_total C L 0 _ Htiles). lia.
  - apply (Forall_impl _ (P := fun r => 1 <= snd r <= C)); [intros r Hr; lia|].
    apply (tiles_positive C L 0); [lia|exact Htiles].
Qed.

Lemma output_has_the_announced_length_witness :
  len (ofs_written (lit "received/" ++ lit "missing.bin")
         (trace (request_file (common_h := x86_64)
                   (silent_server 2500) 3 chan 1024
                   (lit "missing.bin")))) = 2500.
Proof.
  refine (output_has_the_announced_length (common_h := x86_64)
            (silent_server 2500) chan (lit "missing.bin")
            1024 2500 3 _ _ _ _ _ _ _ _).
  - by_computation.
  - by_computation.
  - by_computation.
  - by_computation.
  - by_computation.
  - reflexivity.
  - reflexivity.
  - by_computation.
Defined.

(** ** Replies that are read *)

Lemma to_int64_range (z : Z) : - 2 ^ 63 <= to_int64 z < 2 ^ 63.
Proof.
  unfold to_int64, wrap. change (64 - 1) with 63.
  pose proof (Z.mod_pos_bound (z + 2 ^ 63) (2 ^ 64) ltac:(lia)) as H.
  change (2 ^ 64) with (2 * 2 ^ 63) in *. lia.
Qed.

Lemma to_int64_above (z : Z) : 2 ^ 63 <= z < 2 ^ 64 -> to_int64 z = z - 2 ^ 64.
Proof.
  intros Hz. unfold to_int64, wrap. change (64 - 1) with 63.
  replace (z + 2 ^ 63) with (z + 2 ^ 63 - 2 ^ 64 + 1 * 2 ^ 64) by lia.
  rewrite Z.mod_add by lia.
  rewrite Z.mod_small; [lia|]. change (2 ^ 64) with (2 * 2 ^ 63) in *. lia.
Qed.

(** Whatever the length of the file is, with a positive capacity and an
    offset below the length the loop computes a chunk of at least one
    byte and at most the capacity. *)
Lemma chunk_length_positive (C L off : Z) :
  0 < C <= INT_MAX -> - 2 ^ 63 <= off < 2 ^ 63 -> off < L ->
  1 <= (if to_int64 (off + C) >? L then to_int (to_int64 (L - off)) else C) <= C.
Proof.
  intros HC Hoff Hlt. unfold INT_MAX in HC.
  destruct (Z.gtb_spec (to_int64 (off + C)) L) as [Hgt|_]; [|lia].
  destruct (Z.lt_ge_cases (off + C) (2 ^ 63)) as [Hin|Hout].
  - rewrite to_int64_in_range in Hgt by (unfold INT64_MAX; lia).
    rewrite to_int64_in_range by (unfold INT64_MAX; lia).
    rewrite to_int_in_range by (unfold INT_MAX; lia). lia.
  - rewrite to_int64_above in Hgt by lia. lia.
Qed.

Lemma replies_read_in_flight (tr : list event) :
  Forall reads_a_reply tr ->
  forall pending, replies_read pending tr = in_flight pending tr.
Proof.
  induction 1 as [|ev tr Hev _ IH]; intros pending; [reflexivity|].
  destruct ev; simpl in *; try apply IH.
  - destruct (existsb (channel_eqb ch) pending); [reflexivity|apply IH].
  - destruct (Z.ltb_spec 0 n); [|lia]. simpl.
    destruct (existsb (channel_eqb ch) pending); [apply IH|reflexivity].
Qed.

Ltac reads_leaf := first [exact I | reflexivity | intros; exact I].

Section RepliesRead.

Context {common_h : CommonH}.
Variable w : World.

Lemma reads_first_1000_loop (fuel : nat) (ch : channel) (C p : Z) (outfile : list byte) :
  forall i, always reads_a_reply (first_1000_loop w fuel ch C p outfile i).
Proof.
  induction fuel as [|fuel IH]; intros i; cbn [first_1000_loop];
    destruct (i <? 1000)%float; unfold ask_datamsg; walk; try reads_leaf.
  apply IH.
Qed.

Lemma reads_chunk_loop (fuel : nat) (ch : channel) (C : Z)
    (filename outputfile : list byte) (filelen : Z) :
  0 < C <= INT_MAX ->
  forall off, - 2 ^ 63 <= off < 2 ^ 63 ->
    always reads_a_reply (chunk_loop w fuel ch C filename outputfile filelen off).
Proof.
  intros HC. induction fuel as [|fuel IH]; intros off Hoff; cbn [chunk_loop];
    destruct (Z.ltb_spec off filelen) as [Hlt|Hge]; try (now apply always_silent).
  pose proof (chunk_length_positive C filelen off HC Hoff Hlt) as Hchunk.
  apply always_bind; [unfold send_filemsg; walk; reads_leaf|intros _].
  apply always_bind; [walk|intros buf4].
  apply always_bind; [apply always_cread; simpl; lia|intros buf4'].
  apply always_bind; [now apply always_emit|intros _].
  apply IH. apply to_int64_range.
Qed.

Lemma reads_main (fuel : nat) (argv : list option_arg) :
  0 < Opts.buffercapacity (getopt_loop argv) <= INT_MAX ->
  always reads_a_reply (main w fuel argv).
Proof.
  intros HC.
  unfold main, request_data_point, request_1000_points, request_file,
    new_channel_request, closing_the_channel, ask_datamsg, send_filemsg.
  walk; try reads_leaf.
  - apply reads_first_1000_loop.
  - apply reads_chunk_loop; [exact HC|lia].
Qed.

End RepliesRead.

(** C2, as the specification states it, fails: with -m 0, which the
    option loop accepts, the chunk loop writes FILE(0,0) again and again
    with a read of no byte in between, so that a request is written
    while the reply to the one before has not been read. *)
Lemma zero_capacity_leaves_replies_unread :
  Opts.buffercapacity (getopt_loop (common_h := x86_64) [Opt_m 0; Opt_f (lit "f.bin")]) = 0
  /\ every_request_is_answered
       (trace (main (common_h := x86_64) (file_server sample_file) 2
                 [Opt_m 0; Opt_f (lit "f.bin")])) = false
  /\ channel_events
       (trace (main (common_h := x86_64) (file_server sample_file) 2
                 [Opt_m 0; Opt_f (lit "f.bin")]))
     = [ Cwrite chan (stored (x86_64_filemsg (Filemsg 0 0) ++ c_str (lit "f.bin")));
         Cread chan 8;
         Cwrite chan (stored (x86_64_filemsg (Filemsg 0 0) ++ c_str (lit "f.bin")));
         Cread chan 0;
         Cwrite chan (stored (x86_64_filemsg (Filemsg 0 0) ++ c_str (lit "f.bin")));
         Cread chan 0 ].
Proof. repeat split; vm_compute; reflexivity. Qed.

(** C2, amended. In every run, on each channel, writes and reads
    alternate, a write first; and when the capacity is positive every
    one of these reads takes at least one byte: every request the client
    writes is followed by the read of its reply before the next request
    is written on that channel (the closing QUIT, the last write, has
    no reply). *)
Theorem every_request_has_its_reply_read {common_h : CommonH}
    (w : World) (fuel : nat) (argv : list option_arg) :
  0 < Opts.buffercapacity (getopt_loop argv) <= INT_MAX ->
  every_request_is_answered (trace (main w fuel argv)) = true
  /\ one_in_flight (trace (main w fuel argv)) = true
  /\ every_request_is_answered [Cwrite chan []; Cread chan 0; Cwrite chan []] = false
  /\ every_request_is_answered [Cwrite chan []; Cwrite chan []] = false
  /\ every_request_is_answered [Cwrite chan []; Cread chan 8; Cread chan 8] = false.
Proof.
  intros HC.
  pose proof (one_request_in_flight w fuel argv) as [Halt _].
  split; [|split; [exact Halt|repeat split; reflexivity]].
  unfold every_request_is_answered.
  rewrite (replies_read_in_flight _ (reads_main w fuel argv HC)).
  exact Halt.
Qed.

Lemma every_request_has_its_reply_read_witness :
  every_request_is_answered
    (trace (main (common_h := x86_64) (file_server sample_file) 3
              [Opt_c; Opt_m 1024; Opt_f (lit "f.bin")])) = true.
Proof.
  refine (proj1 (every_request_has_its_reply_read (common_h := x86_64)
                   (file_server sample_file) 3
                   [Opt_c; Opt_m 1024; Opt_f (lit "f.bin")] _)).
  by_computation.
Defined.

(** ** The capacity through the session *)


